(** * Gradient builder base: a shallow embedding of
      orttraining/core/graph/gradient_builder_base.h

    The header defines the base class every per-operator gradient builder
    derives from, the naming and stashing bookkeeping shared by all builders,
    the synthesis of typed scalar constants, and two degenerate builders.

    Conventions of the embedding.
    - [ORT_ENFORCE] throws; a throwing call is the outcome [Fatal].  State
      reached through a reference (the stashed tensors, the log) keeps every
      mutation made before the throw.
    - A pointer that may be null is an [option]: [graph_], a [TypeProto*],
      and what the lookups [GetNodeArg] and [GetProducerNode] return;
      dereferencing [None] is the outcome [NullDeref].  The elements of
      [InputDefs()] and [OutputDefs()] are the arguments themselves.
    - [(int)] applied to a [size_t] keeps the low 32 bits, read as a signed
      number.
    - [std::unordered_set<std::string>] is [gset string],
      [std::unordered_map<std::string, V>] is [gmap string V],
      [std::vector] is [list], [size_t] is [nat], [int] and [int64_t] are [Z],
      [std::to_string] is stdpp's decimal printer [pretty]. *)

From Stdlib Require Import ZArith QArith Ascii.
From stdpp Require Import base gmap sets list strings pretty.

Open Scope Z_scope.

(** ** Outcomes of a call *)

Inductive Outcome (A : Type) : Type :=
  | Ok (a : A)
  | Fatal (msg : string)
  | NullDeref.
Arguments Ok {A} a.
Arguments Fatal {A} msg.
Arguments NullDeref {A}.

Definition is_Ok {A} (r : Outcome A) : bool :=
  match r with Ok _ => true | _ => false end.

Definition is_Fatal {A} (r : Outcome A) : bool :=
  match r with Fatal _ => true | _ => false end.

Definition outcome_bind {A B} (r : Outcome A) (k : A -> Outcome B) : Outcome B :=
  match r with
  | Ok a => k a
  | Fatal msg => Fatal msg
  | NullDeref => NullDeref
  end.

(** [ORT_ENFORCE(cond, msg)] in a function without reference state. *)
Definition ORT_ENFORCE_pure (cond : bool) (msg : string) : Outcome unit :=
  if cond then Ok tt else Fatal msg.

(** ** The graph-element model the header consumes *)

(** [onnx::TensorShapeProto_Dimension]: a concrete extent or a symbol. *)
Inductive Dimension : Type :=
  | dim_value (v : Z)
  | dim_param (p : string).

Global Instance Dimension_eq_dec : EqDecision Dimension.
Proof. solve_decision. Defined.

(** [TypeProto], reduced to its tensor type: element type and, when known,
    the shape. *)
Record TypeProto : Type := mkTypeProto {
  elem_type : Z;
  shape : option (list Dimension)
}.

Global Instance TypeProto_eq_dec : EqDecision TypeProto.
Proof. solve_decision. Defined.

(** Modelled from the spec: [ArgDef] of graph_augmenter.h, the spec's
    ArgumentRef: a name and a type that may be null. *)
Record ArgDef : Type := mkArgDef {
  name : string;
  type_proto : option TypeProto
}.

Global Instance ArgDef_eq_dec : EqDecision ArgDef.
Proof. solve_decision. Defined.

(** A C++ [float] is its IEEE-754 binary32 bit pattern. *)
Definition float32 : Type := Z.

Definition float_0_0 : float32 := 0x00000000.
Definition float_0_5 : float32 := 0x3F000000.
Definition float_1_0 : float32 := 0x3F800000.

(** The rational a finite, normal or zero binary32 pattern denotes. *)
Definition float32_to_Q (bits : float32) : Q :=
  let sign := Z.testbit bits 31 in
  let e := Z.land (Z.shiftr bits 23) 0xFF in
  let m := Z.land bits 0x7FFFFF in
  let mag : Q :=
    if e =? 0 then (inject_Z m * (1 # (2 ^ 149)%positive))%Q
    else if 150 <=? e
         then inject_Z ((0x800000 + m) * 2 ^ (e - 150))
         else (inject_Z (0x800000 + m) * (1 # Z.to_pos (2 ^ (150 - e))))%Q in
  Qred (if sign then Qopp mag else mag).

(** The scalar types [ScalarTensorProto<T>] is instantiated at.  Each
    constructor stands for the C++ constructor call of the same name on a
    [float]; the conversions live in core/framework/float16.h and float8.h. *)
Inductive Scalar : Type :=
  | Float (value : float32)
  | MLFloat16 (value : float32)
  | BFloat16 (value : float32)
  | Float8E4M3FN (value : float32) (saturate : bool)
  | Float8E4M3FNUZ (value : float32) (saturate : bool)
  | Float8E5M2 (value : float32) (saturate : bool)
  | Float8E5M2FNUZ (value : float32) (saturate : bool).

Global Instance Scalar_eq_dec : EqDecision Scalar.
Proof. solve_decision. Defined.

(** [TensorProto_DataType] tags of onnx.proto used by the header. *)
Definition TensorProto_DataType_FLOAT : Z := 1.
Definition TensorProto_DataType_FLOAT16 : Z := 10.
Definition TensorProto_DataType_BFLOAT16 : Z := 16.
Definition TensorProto_DataType_FLOAT8E4M3FN : Z := 17.
Definition TensorProto_DataType_FLOAT8E4M3FNUZ : Z := 18.
Definition TensorProto_DataType_FLOAT8E5M2 : Z := 19.
Definition TensorProto_DataType_FLOAT8E5M2FNUZ : Z := 20.

(** The tag [ToTensor<T>] writes for each [T]. *)
Definition data_type_of (s : Scalar) : Z :=
  match s with
  | Float _ => TensorProto_DataType_FLOAT
  | MLFloat16 _ => TensorProto_DataType_FLOAT16
  | BFloat16 _ => TensorProto_DataType_BFLOAT16
  | Float8E4M3FN _ _ => TensorProto_DataType_FLOAT8E4M3FN
  | Float8E4M3FNUZ _ _ => TensorProto_DataType_FLOAT8E4M3FNUZ
  | Float8E5M2 _ _ => TensorProto_DataType_FLOAT8E5M2
  | Float8E5M2FNUZ _ _ => TensorProto_DataType_FLOAT8E5M2FNUZ
  end.

Record TensorProto : Type := mkTensorProto {
  data_type : Z;
  dims : list Z;
  data : list Scalar
}.

Global Instance TensorProto_eq_dec : EqDecision TensorProto.
Proof. solve_decision. Defined.

(** [ONNX_NAMESPACE::ToTensor<T>(value)] of tensor_proto_util.h: the tag
    of [T], one element, no dimension yet. *)
Definition ToTensor (value : Scalar) : TensorProto :=
  {| data_type := data_type_of value; dims := []; data := [value] |}.

Definition add_dims (t : TensorProto) (d : Z) : TensorProto :=
  {| data_type := data_type t; dims := dims t ++ [d]; data := data t |}.

Inductive AttributeProto : Type :=
  | AttrTensor (t : TensorProto)
  | AttrInt (z : Z)
  | AttrInts (zs : list Z).

Global Instance AttributeProto_eq_dec : EqDecision AttributeProto.
Proof. solve_decision. Defined.

(** [MakeAttribute(name, t)] paired with its name, as the [NodeDef]
    constructor receives it. *)
Definition MakeAttribute (attr_name : string) (t : TensorProto)
  : string * AttributeProto := (attr_name, AttrTensor t).

(** Modelled from the spec: [NodeDef] of graph_augmenter.h, the spec's
    NodeSpec: op type, inputs, outputs, attributes by name, and a name that
    may be empty until finalized. *)
Record NodeDef : Type := mkNodeDef {
  op_type : string;
  input_args : list ArgDef;
  output_args : list ArgDef;
  attributes : list (string * AttributeProto);
  node_name : string
}.

Global Instance NodeDef_eq_dec : EqDecision NodeDef.
Proof. solve_decision. Defined.

(** [NodeDef(op_type, inputs, outputs, attributes)]: the name defaults to
    the empty string. *)
Definition NodeDef_ctor (op : string) (ins outs : list ArgDef)
    (attrs : list (string * AttributeProto)) : NodeDef :=
  {| op_type := op; input_args := ins; output_args := outs;
     attributes := attrs; node_name := "" |}.

Abbreviation GradientDef := (list NodeDef).

(** ** Static helpers of [GradientBuilderBase] *)

Definition GradientName (n : string) : string := n +:+ "_grad".

Definition ExternalOutputName (n : string) : string := n +:+ "_external".

(** [shape.size() == 0 || (shape.size() == 1 && shape[0] == 1)] *)
Definition scalar_shape_ok (shp : list Z) : bool :=
  (length shp =? 0)%nat
  || ((length shp =? 1)%nat && (default 0 (shp !! 0%nat) =? 1)).

Definition ScalarTensorProto (value : Scalar) (shp : list Z)
  : Outcome TensorProto :=
  outcome_bind
    (ORT_ENFORCE_pure (scalar_shape_ok shp)
       "shape.size() == 0 || (shape.size() == 1 && shape[0] == 1)")
    (fun _ => Ok (foldl add_dims (ToTensor value) shp)).

(** The template overload [ConstantScalarNode(T value, shape, arg_name)]. *)
Definition ConstantScalarNode_shape (value : Scalar) (shp : list Z)
    (arg_name : string) : Outcome NodeDef :=
  outcome_bind (ScalarTensorProto value shp) (fun t_proto =>
    Ok (NodeDef_ctor "Constant" [] [mkArgDef arg_name None]
          [MakeAttribute "value" t_proto])).

Section Float8Switch.

(** The build-time macro: [true] when the 8-bit float types are compiled
    out. *)
Variable DISABLE_FLOAT8_TYPES : bool.

(** [ConstantScalarNode(float value, arg_name, int elem_type)] *)
Definition ConstantScalarNode (value : float32) (arg_name : string)
    (elem_type : Z) : Outcome NodeDef :=
  if elem_type =? TensorProto_DataType_FLOAT16 then
    ConstantScalarNode_shape (MLFloat16 value) [1] arg_name
  else if elem_type =? TensorProto_DataType_BFLOAT16 then
    ConstantScalarNode_shape (BFloat16 value) [1] arg_name
  else if negb DISABLE_FLOAT8_TYPES
          && (elem_type =? TensorProto_DataType_FLOAT8E4M3FN) then
    ConstantScalarNode_shape (Float8E4M3FN value true) [1] arg_name
  else if negb DISABLE_FLOAT8_TYPES
          && (elem_type =? TensorProto_DataType_FLOAT8E4M3FNUZ) then
    ConstantScalarNode_shape (Float8E4M3FNUZ value true) [1] arg_name
  else if negb DISABLE_FLOAT8_TYPES
          && (elem_type =? TensorProto_DataType_FLOAT8E5M2) then
    ConstantScalarNode_shape (Float8E5M2 value true) [1] arg_name
  else if negb DISABLE_FLOAT8_TYPES
          && (elem_type =? TensorProto_DataType_FLOAT8E5M2FNUZ) then
    ConstantScalarNode_shape (Float8E5M2FNUZ value true) [1] arg_name
  else
    ConstantScalarNode_shape (Float value) [1] arg_name.

Definition ScalarTensorProtoByElemType (value : float32) (elem_type : Z)
  : Outcome TensorProto :=
  if elem_type =? TensorProto_DataType_FLOAT16 then
    ScalarTensorProto (MLFloat16 value) [1]
  else if elem_type =? TensorProto_DataType_BFLOAT16 then
    ScalarTensorProto (BFloat16 value) [1]
  else if negb DISABLE_FLOAT8_TYPES
          && (elem_type =? TensorProto_DataType_FLOAT8E4M3FN) then
    ScalarTensorProto (Float8E4M3FN value true) [1]
  else if negb DISABLE_FLOAT8_TYPES
          && (elem_type =? TensorProto_DataType_FLOAT8E4M3FNUZ) then
    ScalarTensorProto (Float8E4M3FNUZ value true) [1]
  else if negb DISABLE_FLOAT8_TYPES
          && (elem_type =? TensorProto_DataType_FLOAT8E5M2) then
    ScalarTensorProto (Float8E5M2 value true) [1]
  else if negb DISABLE_FLOAT8_TYPES
          && (elem_type =? TensorProto_DataType_FLOAT8E5M2FNUZ) then
    ScalarTensorProto (Float8E5M2FNUZ value true) [1]
  else
    ScalarTensorProto (Float value) [1].

Definition ZeroConstantNode (elem_type : Z) : Outcome NodeDef :=
  ConstantScalarNode float_0_0 ("ZeroConstant_Type" +:+ pretty elem_type)
    elem_type.

Definition HalfConstantNode (elem_type : Z) : Outcome NodeDef :=
  ConstantScalarNode float_0_5 ("HalfConstant_Type" +:+ pretty elem_type)
    elem_type.

Definition OneConstantNode (elem_type : Z) : Outcome NodeDef :=
  ConstantScalarNode float_1_0 ("OneConstant_Type" +:+ pretty elem_type)
    elem_type.

End Float8Switch.

(** ** The forward graph *)

(** Modelled from the spec: [NodeArg] of core/graph, a forward argument
    with its [Name()] and [TypeAsProto()]. *)
Record NodeArg : Type := mkNodeArg {
  NodeArg_Name : string;
  TypeAsProto : option TypeProto
}.

(** Modelled from the spec: [Node] of core/graph, the forward operator
    instance with its ordered inputs and outputs, operator type, domain and
    opset version ([since_version] and [domain] are those of [Op()]). *)
Record Node : Type := mkNode {
  Node_Name : string;
  OpType : string;
  InputDefs : list NodeArg;
  OutputDefs : list NodeArg;
  since_version : Z;
  domain : string
}.

(** Modelled from the spec: [Graph] of core/graph, as far as the header
    calls it: argument lookup by name, producer lookup by output name, node
    name generation and the domain to opset-version table.  [GetNodeArg]
    is a lookup in the node arguments by name and may find nothing, and so
    may [GetProducerNode], which returns a raw [const Node*].
    [GenerateNodeName] is read as a function of the op type; the names the
    graph reserves while generating are not tracked. *)
Record Graph : Type := mkGraph {
  node_args : gmap string NodeArg;
  GetProducerNode : string -> option Node;
  DomainToVersionMap : gmap string Z;
  GenerateNodeName : string -> string
}.

Definition GetNodeArg (g : Graph) (n : string) : option NodeArg :=
  node_args g !! n.

(** [kOnnxDomain] of core/graph/constants.h, the name of the default
    domain; no property below depends on its value. *)
Definition kOnnxDomain : string := "".

(** ** State behind references, and the monad of member functions *)

(** What a builder reaches through a reference and may change from a
    [const] member function; one store is shared by every builder of a
    pass. *)
Record Shared : Type := mkShared {
  stashed_tensors : gset string;
  python_op_input_require_grad_info : gmap string (list Z);
  log : list string
}.

Definition M (A : Type) : Type := Shared -> Outcome A * Shared.

Global Instance M_ret : MRet M := fun A a s => (Ok a, s).

Global Instance M_bind : MBind M := fun A B k m s =>
  match m s with
  | (Ok a, s') => k a s'
  | (Fatal msg, s') => (Fatal msg, s')
  | (NullDeref, s') => (NullDeref, s')
  end.

Definition throw {A} (msg : string) : M A := fun s => (Fatal msg, s).

Definition ORT_ENFORCE (cond : bool) (msg : string) : M unit :=
  if cond then mret tt else throw msg.

(** [p->...] on a pointer the header may hold null. *)
Definition deref {A} (p : option A) : M A :=
  match p with
  | Some a => mret a
  | None => fun s => (NullDeref, s)
  end.

Definition lift {A} (r : Outcome A) : M A := fun s => (r, s).

(** [LOGS(logger_, INFO) << msg] *)
Definition LOGS_INFO (msg : string) : M unit := fun s =>
  (Ok tt, {| stashed_tensors := stashed_tensors s;
             python_op_input_require_grad_info :=
               python_op_input_require_grad_info s;
             log := log s ++ [msg] |}).

(** ** GradientBuilderBase *)

(** The members a constructed builder owns.  [node_] is not null: the
    constructor enforces it and nothing assigns the member afterwards.  The
    references [stashed_tensors_] and [python_op_input_require_grad_info_]
    point into [Shared], [logger_] writes to its [log];
    [gradient_graph_config_] is only handed back by
    [GetGradientGraphConfiguration] and is left out. *)
Record GradientBuilderBase : Type := mkBuilder {
  graph_ : option Graph;
  node_ : Node;
  unique_node_prefix_ : string;
  gradient_inputs_ : gset string;
  gradient_outputs_ : gset string
}.

Definition CreateUniqueNodePrefix (graph : option Graph) (node : option Node)
  : Outcome string :=
  match node with
  | None => Fatal "node_ != nullptr"
  | Some n =>
      if bool_decide (Node_Name n <> "")
      then Ok (Node_Name n +:+ "_Grad/")
      else match graph with
           | None => NullDeref
           | Some g => Ok (GenerateNodeName g (OpType n) +:+ "_Grad/")
           end
  end.

(** The constructor. *)
Definition GradientBuilderBase_ctor (graph : option Graph)
    (node : option Node) (gradient_inputs gradient_outputs : gset string)
  : Outcome GradientBuilderBase :=
  outcome_bind (CreateUniqueNodePrefix graph node) (fun prefix =>
    match node with
    | None => Fatal "node_ != nullptr"
    | Some n =>
        Ok {| graph_ := graph; node_ := n; unique_node_prefix_ := prefix;
              gradient_inputs_ := gradient_inputs;
              gradient_outputs_ := gradient_outputs |}
    end).

Definition RecordStashedTensor (n : string) : M unit := fun s =>
  (Ok tt, {| stashed_tensors := {[ n ]} ∪ stashed_tensors s;
             python_op_input_require_grad_info :=
               python_op_input_require_grad_info s;
             log := log s |}).

Definition IsTensorStashed (n : string) : M bool := fun s =>
  (Ok (bool_decide (n ∈ stashed_tensors s)), s).

Definition Name (b : GradientBuilderBase) (n : string) : string :=
  unique_node_prefix_ b +:+ n.

(** [(int)n] for a [size_t] [n]: the low 32 bits as a two's complement
    number. *)
Definition int_of_size_t (n : nat) : Z :=
  let low := Z.of_nat n mod 2 ^ 32 in
  if low <? 2 ^ 31 then low else low - 2 ^ 32.

Section Accessors.

(** [graph_utils::RecomputeName] of recompute_graph_utils.h. *)
Variable RecomputeName : string -> string.

Variable b : GradientBuilderBase.

(** The body [I] and [O] share, on the argument vector [defs];
    [ORT_ENFORCE(i < defs.size())] fails exactly when [defs !! i] is
    [None]. *)
Definition forward_arg (defs : list NodeArg) (enforce_msg : string)
    (i : nat) (record_stashing : bool) : M ArgDef :=
  match defs !! i with
  | None => throw enforce_msg
  | Some arg =>
      let name := NodeArg_Name arg in
      g ← deref (graph_ b);
      match GetNodeArg g (RecomputeName name) with
      | Some recomputed_nodearg =>
          let producer_node := GetProducerNode g name in
          producer ← deref producer_node;
          LOGS_INFO ("Recomputed node arg found for "
                     +:+ Node_Name producer);;
          mret (mkArgDef (NodeArg_Name recomputed_nodearg)
                         (TypeAsProto recomputed_nodearg))
      | None =>
          (if record_stashing then RecordStashedTensor (NodeArg_Name arg)
           else mret tt);;
          mret (mkArgDef (NodeArg_Name arg) (TypeAsProto arg))
      end
  end.

(** i-th input of forward op *)
Definition I (i : nat) (record_stashing : bool) : M ArgDef :=
  forward_arg (InputDefs (node_ b)) "i < node_->InputDefs().size()"
    i record_stashing.

(** i-th output of forward op *)
Definition O (i : nat) (record_stashing : bool) : M ArgDef :=
  forward_arg (OutputDefs (node_ b)) "i < node_->OutputDefs().size()"
    i record_stashing.

Definition GI (i : nat) : M ArgDef :=
  match InputDefs (node_ b) !! i with
  | None => throw "i < node_->InputDefs().size()"
  | Some arg => mret (mkArgDef (GradientName (NodeArg_Name arg))
                               (TypeAsProto arg))
  end.

Definition GI_type (i : nat) (type : option TypeProto) : M ArgDef :=
  match InputDefs (node_ b) !! i with
  | None => throw "i < node_->InputDefs().size()"
  | Some arg => mret (mkArgDef (GradientName (NodeArg_Name arg)) type)
  end.

Definition GO (i : nat) : M ArgDef :=
  match OutputDefs (node_ b) !! i with
  | None => throw "i < node_->OutputDefs().size()"
  | Some arg => mret (mkArgDef (GradientName (NodeArg_Name arg))
                               (TypeAsProto arg))
  end.

Definition IA (argSuffix : string) (type : option TypeProto) : ArgDef :=
  mkArgDef (Name b argSuffix) type.

Definition IType (i : nat) : M (option TypeProto) :=
  match InputDefs (node_ b) !! i with
  | None => throw "i < node_->InputDefs().size()"
  | Some arg => mret (TypeAsProto arg)
  end.

Definition OType (i : nat) : M (option TypeProto) :=
  match OutputDefs (node_ b) !! i with
  | None => throw "i < node_->OutputDefs().size()"
  | Some arg => mret (TypeAsProto arg)
  end.

Definition IElemType (i : nat) : M Z :=
  t ← IType i; ty ← deref t; mret (elem_type ty).

Definition OElemType (i : nat) : M Z :=
  t ← OType i; ty ← deref t; mret (elem_type ty).

(** [ORT_ENFORCE(node_ != nullptr)] holds of every constructed builder;
    the size is cast to [int]. *)
Definition GetSrcNodeInputSize : M Z :=
  ORT_ENFORCE true "node_ != nullptr";;
  mret (int_of_size_t (length (InputDefs (node_ b)))).

Definition GetSrcNodeOutputSize : M Z :=
  ORT_ENFORCE true "node_ != nullptr";;
  mret (int_of_size_t (length (OutputDefs (node_ b)))).

(** returns true if the input at index i of the node_ requires gradient.
    The right operand of [&&] reads [InputDefs()[i]] only in range. *)
Definition IsGradientRequiredForSrcNodeInput (i : nat) : Outcome bool :=
  if bool_decide (i < length (InputDefs (node_ b)))%nat
  then match InputDefs (node_ b) !! i with
       | Some arg =>
           Ok (bool_decide (NodeArg_Name arg ∈ gradient_outputs_ b))
       | None => NullDeref
       end
  else Ok false.

(** returns true if the output at index i of the node_ has a gradient *)
Definition IsGradientAvailableForSrcNodeOutput (i : nat) : Outcome bool :=
  if bool_decide (i < length (OutputDefs (node_ b)))%nat
  then match OutputDefs (node_ b) !! i with
       | Some arg =>
           Ok (bool_decide (NodeArg_Name arg ∈ gradient_inputs_ b))
       | None => NullDeref
       end
  else Ok false.

Definition SrcNodeOpType : string := OpType (node_ b).
Definition SrcNodeOpsetVersion : Z := since_version (node_ b).
Definition SrcNodeDomain : string := domain (node_ b).
Definition NodeName : string := Node_Name (node_ b).

(** [std::unordered_map::at]: throws when the key is absent. *)
Definition map_at (m : gmap string Z) (k : string) : Outcome Z :=
  match m !! k with
  | Some v => Ok v
  | None => Fatal "unordered_map::at"
  end.

Definition OnnxOpSetVersion : Outcome Z :=
  match graph_ b with
  | Some g =>
      if bool_decide (DomainToVersionMap g !! kOnnxDomain <> None)
      then map_at (DomainToVersionMap g) kOnnxDomain
      else Ok (-1)
  | None => Ok (-1)
  end.

(** [node_def.name = n] *)
Definition set_name (node_def : NodeDef) (n : string) : NodeDef :=
  {| op_type := op_type node_def;
     input_args := input_args node_def;
     output_args := output_args node_def;
     attributes := attributes node_def;
     node_name := n |}.

(** The body of the loop of [GetGradientDefs] at index [i]. *)
Definition finalize_name (i : nat) (node_def : NodeDef) : NodeDef :=
  if bool_decide (node_name node_def = "")
  then set_name node_def (Name b (op_type node_def +:+ "_" +:+ pretty i))
  else node_def.

(** The loop of [GetGradientDefs], from index [i] on. *)
Fixpoint finalize_names (i : nat) (node_defs : list NodeDef)
  : list NodeDef :=
  match node_defs with
  | [] => []
  | node_def :: rest =>
      finalize_name i node_def :: finalize_names (S i) rest
  end.

(** [GetGradientDefs], over the virtual [GetGradientDefsImpl]. *)
Definition GetGradientDefs_over (impl : M GradientDef) : M GradientDef :=
  node_defs ← impl; mret (finalize_names 0 node_defs).

End Accessors.

(** ** Concrete builders *)

(** A concrete builder is a [GradientBuilderBase] with an implementation of
    the pure virtual [GetGradientDefsImpl]. *)
Class GradientBuilder (T : Type) : Type := {
  base : T -> GradientBuilderBase;
  GetGradientDefsImpl : T -> M GradientDef
}.

Definition GetGradientDefs {T} `{GradientBuilder T} (t : T) : M GradientDef :=
  GetGradientDefs_over (base t) (GetGradientDefsImpl t).

Record EmptyGradientBuilder : Type := mkEmpty {
  Empty_base : GradientBuilderBase
}.

Global Instance EmptyGradientBuilder_builder
  : GradientBuilder EmptyGradientBuilder :=
  {| base := Empty_base; GetGradientDefsImpl := fun _ => mret [] |}.

Record UnSupportedGradientBuilder : Type := mkUnSupported {
  UnSupported_base : GradientBuilderBase
}.

Global Instance UnSupportedGradientBuilder_builder
  : GradientBuilder UnSupportedGradientBuilder :=
  {| base := UnSupported_base;
     GetGradientDefsImpl := fun _ =>
       throw "Gradient should not be requested for this operator" |}.

(** ** What a derived class can do to the shared state

    [stashed_tensors_] is a private member, so the body of a concrete
    [GetGradientDefsImpl] reaches it only through the protected member
    functions of the base.  [BaseCall] lists those the header defines,
    indexed by their result type; [Body] is a computation that may call
    them, branch on their results, throw or return. *)

Inductive BaseCall : Type -> Type :=
  | Call_RecordStashedTensor (n : string) : BaseCall unit
  | Call_IsTensorStashed (n : string) : BaseCall bool
  | Call_I (i : nat) (record_stashing : bool) : BaseCall ArgDef
  | Call_O (i : nat) (record_stashing : bool) : BaseCall ArgDef
  | Call_GI (i : nat) : BaseCall ArgDef
  | Call_GI_type (i : nat) (type : option TypeProto) : BaseCall ArgDef
  | Call_GO (i : nat) : BaseCall ArgDef
  | Call_IA (argSuffix : string) (type : option TypeProto) : BaseCall ArgDef
  | Call_IType (i : nat) : BaseCall (option TypeProto)
  | Call_OType (i : nat) : BaseCall (option TypeProto)
  | Call_IElemType (i : nat) : BaseCall Z
  | Call_OElemType (i : nat) : BaseCall Z
  | Call_GetSrcNodeInputSize : BaseCall Z
  | Call_GetSrcNodeOutputSize : BaseCall Z
  | Call_IsGradientRequiredForSrcNodeInput (i : nat) : BaseCall bool
  | Call_IsGradientAvailableForSrcNodeOutput (i : nat) : BaseCall bool
  | Call_Name (n : string) : BaseCall string
  | Call_SrcNodeOpType : BaseCall string
  | Call_SrcNodeOpsetVersion : BaseCall Z
  | Call_SrcNodeDomain : BaseCall string
  | Call_OnnxOpSetVersion : BaseCall Z
  | Call_NodeName : BaseCall string.

Inductive Body (A : Type) : Type :=
  | Return (a : A)
  | Throw (msg : string)
  | Call {X : Type} (c : BaseCall X) (k : X -> Body A).
Arguments Return {A} a.
Arguments Throw {A} msg.
Arguments Call {A X} c k.

(** A builder given by the body of its [GetGradientDefsImpl]. *)
Record BodyBuilder : Type := mkBodyBuilder {
  body_base : GradientBuilderBase;
  body : Body GradientDef
}.

(** One call of [I] or [O] on some builder of the pass. *)
Inductive AccessorCall : Type :=
  | Acc_I (b : GradientBuilderBase) (i : nat) (record_stashing : bool)
  | Acc_O (b : GradientBuilderBase) (i : nat) (record_stashing : bool).

(** The forward argument an accessor call asks for, when in range. *)
Definition accessor_arg (c : AccessorCall) : option NodeArg :=
  match c with
  | Acc_I b i _ => InputDefs (node_ b) !! i
  | Acc_O b i _ => OutputDefs (node_ b) !! i
  end.

Section Interpretation.

Variable RecomputeName : string -> string.

Definition call (b : GradientBuilderBase) {X} (c : BaseCall X) : M X :=
  match c in BaseCall X return M X with
  | Call_RecordStashedTensor n => RecordStashedTensor n
  | Call_IsTensorStashed n => IsTensorStashed n
  | Call_I i rs => I RecomputeName b i rs
  | Call_O i rs => O RecomputeName b i rs
  | Call_GI i => GI b i
  | Call_GI_type i ty => GI_type b i ty
  | Call_GO i => GO b i
  | Call_IA sfx ty => mret (IA b sfx ty)
  | Call_IType i => IType b i
  | Call_OType i => OType b i
  | Call_IElemType i => IElemType b i
  | Call_OElemType i => OElemType b i
  | Call_GetSrcNodeInputSize => GetSrcNodeInputSize b
  | Call_GetSrcNodeOutputSize => GetSrcNodeOutputSize b
  | Call_IsGradientRequiredForSrcNodeInput i =>
      lift (IsGradientRequiredForSrcNodeInput b i)
  | Call_IsGradientAvailableForSrcNodeOutput i =>
      lift (IsGradientAvailableForSrcNodeOutput b i)
  | Call_Name n => mret (Name b n)
  | Call_SrcNodeOpType => mret (SrcNodeOpType b)
  | Call_SrcNodeOpsetVersion => mret (SrcNodeOpsetVersion b)
  | Call_SrcNodeDomain => mret (SrcNodeDomain b)
  | Call_OnnxOpSetVersion => lift (OnnxOpSetVersion b)
  | Call_NodeName => mret (NodeName b)
  end.

Fixpoint run_body (b : GradientBuilderBase) {A} (p : Body A) : M A :=
  match p with
  | Return a => mret a
  | Throw msg => throw msg
  | Call c k => x ← call b c; run_body b (k x)
  end.

Definition BodyBuilder_builder : GradientBuilder BodyBuilder :=
  {| base := body_base;
     GetGradientDefsImpl := fun t => run_body (body_base t) (body t) |}.

(** The orchestrator's loop: one builder after the other on the same
    shared state; a throw ends the pass. *)
Fixpoint run_pass (builders : list BodyBuilder) : M (list GradientDef) :=
  match builders with
  | [] => mret []
  | t :: rest =>
      d ← @GetGradientDefs _ BodyBuilder_builder t;
      ds ← run_pass rest; mret (d :: ds)
  end.

Definition run_accessor (c : AccessorCall) : M ArgDef :=
  match c with
  | Acc_I b i rs => I RecomputeName b i rs
  | Acc_O b i rs => O RecomputeName b i rs
  end.

Fixpoint run_accessors (cs : list AccessorCall) : M (list ArgDef) :=
  match cs with
  | [] => mret []
  | c :: rest =>
      a ← run_accessor c; r ← run_accessors rest; mret (a :: r)
  end.

End Interpretation.

(** ** Broadcasting helpers

    The header only declares [ComputeBroadcastBackwardAxes],
    [AddReduceSumNode] and [HandleBroadcasting]; their bodies are in
    gradient_builder_base.cc. *)

(** Modelled from the spec: the body of [ComputeBroadcastBackwardAxes] is
    in gradient_builder_base.cc.  This is what one right-aligned pair of
    dimensions contributes, as (reduce A here, reduce B here).  Two equal concrete sizes
    or two equal symbols contribute nothing; a concrete 1 against anything
    else marks the side holding the 1; every other pair cannot be resolved
    and fails with a diagnostic naming the node. *)
Definition broadcast_pair (a b : Dimension) (node_name : string)
  : Outcome (bool * bool) :=
  match a, b with
  | dim_value x, dim_value y =>
      if x =? y then Ok (false, false)
      else if x =? 1 then Ok (true, false)
      else if y =? 1 then Ok (false, true)
      else Fatal ("incompatible dimensions for broadcasting: " +:+ node_name)
  | dim_param p, dim_param q =>
      if bool_decide (p = q) then Ok (false, false)
      else Fatal ("symbolic dimensions do not match: " +:+ node_name)
  | dim_param _, dim_value y =>
      if y =? 1 then Ok (false, true)
      else Fatal ("unresolved symbolic dimension: " +:+ node_name)
  | dim_value x, dim_param _ =>
      if x =? 1 then Ok (true, false)
      else Fatal ("unresolved symbolic dimension: " +:+ node_name)
  end.

(** Modelled from the spec: the loop of [ComputeBroadcastBackwardAxes],
    whose body is in gradient_builder_base.cc; the walk from the trailing
    axis backward over
    the reversed dimension lists, [k] being the axis of the current pair in
    the right-aligned frame.  Axes left over on the longer operand are
    reduce-axes of the shorter one; both lists come out ascending. *)
Fixpoint broadcast_walk (ra rb : list Dimension) (k : Z)
    (A_axes B_axes : list Z) (node_name : string)
  : Outcome (list Z * list Z) :=
  match ra, rb with
  | [], [] => Ok (A_axes, B_axes)
  | [], _ :: _ => Ok (seqZ 0 (k + 1) ++ A_axes, B_axes)
  | _ :: _, [] => Ok (A_axes, seqZ 0 (k + 1) ++ B_axes)
  | a :: ra', b :: rb' =>
      outcome_bind (broadcast_pair a b node_name) (fun r =>
        broadcast_walk ra' rb' (k - 1)
          (if r.1 then k :: A_axes else A_axes)
          (if r.2 then k :: B_axes else B_axes) node_name)
  end.

(** Modelled from the spec: [ComputeBroadcastBackwardAxes], declared in
    the header and defined in gradient_builder_base.cc, returning the two
    lists the C++ function writes through [A_axes] and [B_axes]. *)
Definition ComputeBroadcastBackwardAxes (A_dims B_dims : list Dimension)
    (node_name : string) : Outcome (list Z * list Z) :=
  let ndim := Z.of_nat (max (length A_dims) (length B_dims)) in
  broadcast_walk (rev A_dims) (rev B_dims) (ndim - 1) [] [] node_name.

Definition rank_of (a : ArgDef) : option nat :=
  d ← (t ← type_proto a; shape t); Some (length d).

(** Modelled from the spec: [AddReduceSumNode], declared in the header and
    defined in gradient_builder_base.cc: a sum over [reduce_axes] appended
    to [output]. *)
Definition AddReduceSumNode (input_arg_def output_arg_def : ArgDef)
    (reduce_axes : list Z) (keep_dims : bool) (output : list NodeDef)
  : list NodeDef :=
  output ++
  [NodeDef_ctor "ReduceSum" [input_arg_def] [output_arg_def]
     [("axes", AttrInts reduce_axes);
      ("keepdims", AttrInt (if keep_dims then 1 else 0))]].

(** Modelled from the spec: [HandleBroadcasting], declared in the header
    and defined in gradient_builder_base.cc.  With no axis to reduce
    the output list is left as it is.  Otherwise a reduction is appended,
    keeping dimensions when the target has the rank of the raw gradient, and
    a reshape to the target follows unless the reduced rank is known to be
    the target's. *)
Definition HandleBroadcasting (b : GradientBuilderBase)
    (input_grad target output_grad : ArgDef) (reduce_axes : list Z)
    (output : list NodeDef) : list NodeDef :=
  match reduce_axes with
  | [] => output
  | _ :: _ =>
      match rank_of input_grad, rank_of target with
      | Some rg, Some rt =>
          if (rg =? rt)%nat then
            AddReduceSumNode input_grad output_grad reduce_axes true output
          else if (rg - length reduce_axes =? rt)%nat then
            AddReduceSumNode input_grad output_grad reduce_axes false output
          else
            let reduced := IA b "ReduceSum_out" None in
            AddReduceSumNode input_grad reduced reduce_axes false output
            ++ [NodeDef_ctor "Reshape" [reduced; target] [output_grad] []]
      | _, _ =>
          let reduced := IA b "ReduceSum_out" None in
          AddReduceSumNode input_grad reduced reduce_axes false output
          ++ [NodeDef_ctor "Reshape" [reduced; target] [output_grad] []]
      end
  end.

(** ** The constant dispatch as a table

    The element-type tests of [ConstantScalarNode] read as a table from tag
    to scalar constructor, searched for the first match. *)

Definition dispatch_table (DISABLE_FLOAT8_TYPES : bool)
  : list (Z * (float32 -> Scalar)) :=
  [(TensorProto_DataType_FLOAT16, MLFloat16);
   (TensorProto_DataType_BFLOAT16, BFloat16)]
  ++ (if DISABLE_FLOAT8_TYPES then []
      else [(TensorProto_DataType_FLOAT8E4M3FN,
               fun v => Float8E4M3FN v true);
            (TensorProto_DataType_FLOAT8E4M3FNUZ,
               fun v => Float8E4M3FNUZ v true);
            (TensorProto_DataType_FLOAT8E5M2,
               fun v => Float8E5M2 v true);
            (TensorProto_DataType_FLOAT8E5M2FNUZ,
               fun v => Float8E5M2FNUZ v true)]).

Fixpoint first_match (table : list (Z * (float32 -> Scalar)))
    (elem_type : Z) : float32 -> Scalar :=
  match table with
  | [] => Float
  | (tag, enc) :: rest =>
      if elem_type =? tag then enc else first_match rest elem_type
  end.

(** [ConstantScalarNode] with its tests taken from [table], in the order
    of [table]. *)
Definition ConstantScalarNode_by_table
    (table : list (Z * (float32 -> Scalar)))
    (value : float32) (arg_name : string) (elem_type : Z) : Outcome NodeDef :=
  ConstantScalarNode_shape (first_match table elem_type value) [1] arg_name.

(** The constant node the header builds for a given typed scalar. *)
Definition constant_node (arg_name : string) (value : Scalar) : NodeDef :=
  {| op_type := "Constant"; input_args := [];
     output_args := [mkArgDef arg_name None];
     attributes := [("value", AttrTensor
        {| data_type := data_type_of value; dims := [1]; data := [value] |})];
     node_name := "" |}.

(** The float a typed scalar was built from. *)
Definition scalar_value (s : Scalar) : float32 :=
  match s with
  | Float v | MLFloat16 v | BFloat16 v => v
  | Float8E4M3FN v _ | Float8E4M3FNUZ v _ => v
  | Float8E5M2 v _ | Float8E5M2FNUZ v _ => v
  end.

(** The names of the output arguments of a returned node. *)
Definition output_arg_names (r : Outcome NodeDef) : list string :=
  match r with
  | Ok nd => name <$> output_args nd
  | _ => []
  end.

(** ** A small forward graph, used to run the definitions

    The node [add0] computes [Z = Add(X, Y)]; the recompute pass has left an
    alias for [X] but none for [Y] or [Z]. *)

Definition example_RecomputeName (n : string) : string := n +:+ "_recompute".

Definition example_type : TypeProto :=
  {| elem_type := TensorProto_DataType_FLOAT;
     shape := Some [dim_value 8; dim_value 4] |}.

Definition example_node : Node :=
  {| Node_Name := "add0"; OpType := "Add";
     InputDefs := [mkNodeArg "X" (Some example_type); mkNodeArg "Y" None];
     OutputDefs := [mkNodeArg "Z" (Some example_type)];
     since_version := 14; domain := "" |}.

(** [X] is the output of [gelu0], which the recompute pass has doubled. *)
Definition example_producer : Node :=
  {| Node_Name := "gelu0"; OpType := "Gelu";
     InputDefs := [mkNodeArg "A" (Some example_type)];
     OutputDefs := [mkNodeArg "X" (Some example_type)];
     since_version := 1; domain := "com.microsoft" |}.

Definition example_graph : Graph :=
  {| node_args := {[ "X_recompute" :=
                       mkNodeArg "X_recompute" (Some example_type) ]};
     GetProducerNode := fun n =>
       if bool_decide (n = "X") then Some example_producer
       else if bool_decide (n = "Z") then Some example_node
       else None;
     DomainToVersionMap := {[ kOnnxDomain := 14 ]};
     GenerateNodeName := fun op => op +:+ "_token_0" |}.

Definition example_builder : GradientBuilderBase :=
  {| graph_ := Some example_graph; node_ := example_node;
     unique_node_prefix_ := "add0_Grad/";
     gradient_inputs_ := {[ "Z" ]}; gradient_outputs_ := {[ "X" ]} |}.

(** The same graph for a model in which [X] is a graph input: the graph
    holds an argument named as the alias of [X], and no node produces
    [X]. *)
Definition example_graph_no_producer : Graph :=
  {| node_args := {[ "X_recompute" :=
                       mkNodeArg "X_recompute" (Some example_type) ]};
     GetProducerNode := fun n =>
       if bool_decide (n = "Z") then Some example_node else None;
     DomainToVersionMap := {[ kOnnxDomain := 14 ]};
     GenerateNodeName := fun op => op +:+ "_token_0" |}.

Definition example_builder_no_producer : GradientBuilderBase :=
  {| graph_ := Some example_graph_no_producer; node_ := example_node;
     unique_node_prefix_ := "add0_Grad/";
     gradient_inputs_ := {[ "Z" ]}; gradient_outputs_ := {[ "X" ]} |}.

Definition example_shared : Shared :=
  {| stashed_tensors := ∅; python_op_input_require_grad_info := ∅;
     log := [] |}.

(** A member function only adds to the stashed tensors. *)
Definition stash_grows {A} (m : M A) : Prop :=
  forall s : Shared, stashed_tensors s ⊆ stashed_tensors (m s).2.

(** A member function adds at most the name [n] to the stashed tensors. *)
Definition stash_adds_at_most {A} (n : string) (m : M A) : Prop :=
  forall s : Shared,
    stashed_tensors (m s).2 = stashed_tensors s
    \/ stashed_tensors (m s).2 = {[ n ]} ∪ stashed_tensors s.

(** A second builder of the same pass, on a node that also reads [Y]. *)
Definition example_node_2 : Node :=
  {| Node_Name := ""; OpType := "Mul";
     InputDefs := [mkNodeArg "Z" (Some example_type); mkNodeArg "Y" None];
     OutputDefs := [mkNodeArg "W" (Some example_type)];
     since_version := 14; domain := "" |}.

Definition example_builder_2 : GradientBuilderBase :=
  {| graph_ := Some example_graph; node_ := example_node_2;
     unique_node_prefix_ := "Mul_token_0_Grad/";
     gradient_inputs_ := {[ "W" ]}; gradient_outputs_ := {[ "Z"; "Y" ]} |}.

(** Whether the character [c] occurs in [s]. *)
Fixpoint has_char (c : ascii) (s : string) : bool :=
  match s with
  | EmptyString => false
  | String c' s' => bool_decide (c' = c) || has_char c s'
  end.

(** A concrete builder that names both of its nodes itself, the same. *)
Record TwiceNamedBuilder : Type := mkTwiceNamed {
  TwiceNamed_base : GradientBuilderBase
}.

Definition twice_named_defs : GradientDef :=
  [set_name (NodeDef_ctor "Mul" [mkArgDef "Z_grad" None; mkArgDef "Y" None]
               [mkArgDef "X_grad" None] []) "scale";
   set_name (NodeDef_ctor "Mul" [mkArgDef "Z_grad" None; mkArgDef "X" None]
               [mkArgDef "Y_grad" None] []) "scale"].

Global Instance TwiceNamedBuilder_builder : GradientBuilder TwiceNamedBuilder :=
  {| base := TwiceNamed_base;
     GetGradientDefsImpl := fun _ => mret twice_named_defs |}.

(** The gradient of [add0] written against the protected interface: both
    input gradients are the output gradient, and [Y] is read once. *)
Definition example_body : Body GradientDef :=
  Call (Call_GO 0) (fun dZ =>
  Call (Call_I 1 true) (fun _ =>
  Call (Call_GI 0) (fun dX =>
  Call (Call_GI 1) (fun dY =>
  Return [NodeDef_ctor "Identity" [dZ] [dX] [];
          NodeDef_ctor "Identity" [dZ] [dY] []])))).

Definition example_body_builder : BodyBuilder :=
  {| body_base := example_builder; body := example_body |}.

(** A body that names its first node the way the loop of [GetGradientDefs]
    names an unnamed [Mul] at index 1, and leaves its second node, a [Mul],
    unnamed. *)
Definition example_clash_builder : BodyBuilder :=
  {| body_base := example_builder;
     body :=
       Call (Call_Name "Mul_1") (fun n =>
       Return [set_name (NodeDef_ctor "Neg" [mkArgDef "Z_grad" None]
                           [mkArgDef "t" None] []) n;
               NodeDef_ctor "Mul" [mkArgDef "t" None; mkArgDef "Y" None]
                 [mkArgDef "X_grad" None] []]) |}.

(** ** Notions used to state further properties *)

(** The name of the argument a call returned, if it returned. *)
Definition result_name (r : Outcome ArgDef) : option string :=
  match r with
  | Ok a => Some (name a)
  | _ => None
  end.

(** The last character of a string. *)
Fixpoint last_char (s : string) : option ascii :=
  match s with
  | EmptyString => None
  | String c EmptyString => Some c
  | String _ s' => last_char s'
  end.

(** The protected calls whose bodies write through a reference member:
    [RecordStashedTensor] inserts, [I] and [O] may insert and may log. *)
Definition writes_shared {X} (c : BaseCall X) : bool :=
  match c with
  | Call_RecordStashedTensor _ | Call_I _ _ | Call_O _ _ => true
  | _ => false
  end.

(** What [GetGradientDefs] keeps of a node: everything but its name. *)
Definition same_but_name (a d : NodeDef) : Prop :=
  op_type d = op_type a /\ input_args d = input_args a
  /\ output_args d = output_args a /\ attributes d = attributes a.

(** A builder constructed with a null graph pointer on the named node
    [add0]. *)
Definition example_builder_no_graph : GradientBuilderBase :=
  {| graph_ := None; node_ := example_node;
     unique_node_prefix_ := "add0_Grad/";
     gradient_inputs_ := {[ "Z" ]}; gradient_outputs_ := {[ "X" ]} |}.

(** A node whose name has the prefix of [add0] in it. *)
Definition example_node_nested : Node :=
  {| Node_Name := "add0_Grad/inner"; OpType := "Add";
     InputDefs := []; OutputDefs := [];
     since_version := 14; domain := "" |}.

(** A third builder, constructed without a graph on the named node
    [mul1]. *)
Definition example_node_3 : Node :=
  {| Node_Name := "mul1"; OpType := "Mul";
     InputDefs := [mkNodeArg "Z" (Some example_type)];
     OutputDefs := [mkNodeArg "W" None];
     since_version := 14; domain := "" |}.

Definition example_builder_3 : GradientBuilderBase :=
  {| graph_ := None; node_ := example_node_3;
     unique_node_prefix_ := "mul1_Grad/";
     gradient_inputs_ := ∅; gradient_outputs_ := ∅ |}.

Definition example_builder_nested : GradientBuilderBase :=
  {| graph_ := None; node_ := example_node_nested;
     unique_node_prefix_ := "add0_Grad/inner_Grad/";
     gradient_inputs_ := ∅; gradient_outputs_ := ∅ |}.

(** * Properties *)

(** ** The definitions, run *)

Example to_string_examples :
  pretty (0 : Z) = "0" /\ pretty (10 : Z) = "10" /\ pretty (-3 : Z) = "-3"
  /\ pretty 12%nat = "12".
Proof. repeat split. Qed.

Example float_literals_denote :
  float32_to_Q float_0_0 = 0%Q /\ float32_to_Q float_0_5 = (1 # 2)%Q
  /\ float32_to_Q float_1_0 = 1%Q.
Proof. repeat split; vm_compute; reflexivity. Qed.

Example OneConstantNode_float16 :
  OneConstantNode false 10 =
  Ok {| op_type := "Constant"; input_args := [];
        output_args := [mkArgDef "OneConstant_Type10" None];
        attributes := [("value", AttrTensor
          {| data_type := 10; dims := [1]; data := [MLFloat16 float_1_0] |})];
        node_name := "" |}.
Proof. vm_compute. reflexivity. Qed.

Example ScalarTensorProto_rejects_pair :
  is_Fatal (ScalarTensorProto (Float float_1_0) [1; 1]) = true
  /\ is_Fatal (ScalarTensorProto (Float float_1_0) [2]) = true
  /\ ScalarTensorProto (Float float_1_0) []
     = Ok {| data_type := 1; dims := []; data := [Float float_1_0] |}.
Proof. repeat split. Qed.

Example constructor_examples :
  GradientBuilderBase_ctor (Some example_graph) (Some example_node)
    {[ "Z" ]} {[ "X" ]} = Ok example_builder
  /\ GradientBuilderBase_ctor (Some example_graph) (Some example_node_2)
      {[ "W" ]} {[ "Z"; "Y" ]} = Ok example_builder_2
  /\ GradientBuilderBase_ctor (Some example_graph) None ∅ ∅
     = Fatal "node_ != nullptr"
  /\ GradientBuilderBase_ctor None (Some example_node_2) ∅ ∅ = NullDeref.
Proof. repeat split. Qed.

Example I_out_of_range :
  I example_RecomputeName example_builder 2 true example_shared
  = (Fatal "i < node_->InputDefs().size()", example_shared).
Proof. reflexivity. Qed.

Example I_logs_the_producer :
  log (I example_RecomputeName example_builder 0 true example_shared).2
  = ["Recomputed node arg found for gelu0"].
Proof. reflexivity. Qed.

Example example_body_run :
  (@GetGradientDefs _ (BodyBuilder_builder example_RecomputeName)
     example_body_builder example_shared).1
  = Ok [set_name (NodeDef_ctor "Identity"
                    [mkArgDef "Z_grad" (Some example_type)]
                    [mkArgDef "X_grad" (Some example_type)] [])
          "add0_Grad/Identity_0";
        set_name (NodeDef_ctor "Identity"
                    [mkArgDef "Z_grad" (Some example_type)]
                    [mkArgDef "Y_grad" None] [])
          "add0_Grad/Identity_1"].
Proof. reflexivity. Qed.

(** An assigned name can also meet a name the body chose. *)
Example assigned_name_meets_given_name :
  node_name <$>
    default [] (match (@GetGradientDefs _
                         (BodyBuilder_builder example_RecomputeName)
                         example_clash_builder example_shared).1 with
                | Ok defs => Some defs
                | _ => None
                end)
  = ["add0_Grad/Mul_1"; "add0_Grad/Mul_1"].
Proof. reflexivity. Qed.

Example ComputeBroadcastBackwardAxes_add_example :
  ComputeBroadcastBackwardAxes
    [dim_value 8; dim_value 1; dim_value 4] [dim_value 4] "add0"
  = Ok ([], [0; 1]).
Proof. reflexivity. Qed.

(** ** Scalar constants *)

Lemma ScalarTensorProto_one (value : Scalar) :
  ScalarTensorProto value [1] =
  Ok {| data_type := data_type_of value; dims := [1]; data := [value] |}.
Proof. reflexivity. Qed.

Lemma ConstantScalarNode_shape_one (value : Scalar) (arg_name : string) :
  ConstantScalarNode_shape value [1] arg_name =
  Ok (constant_node arg_name value).
Proof. reflexivity. Qed.

Lemma scalar_shape_ok_spec (shp : list Z) :
  scalar_shape_ok shp = true <-> shp = [] \/ shp = [1].
Proof.
  unfold scalar_shape_ok.
  destruct shp as [|d [|d' rest]]; simpl.
  - split; [by left | done].
  - rewrite Z.eqb_eq. split.
    + intros ->. by right.
    + intros [?|?]; congruence.
  - split; [done | intros [?|?]; discriminate].
Qed.

Lemma foldl_add_dims (t : TensorProto) (shp : list Z) :
  foldl add_dims t shp =
  {| data_type := data_type t; dims := dims t ++ shp; data := data t |}.
Proof.
  revert t. induction shp as [|d shp IH]; intros t; simpl.
  - rewrite app_nil_r. by destruct t.
  - rewrite IH. simpl. by rewrite <- app_assoc.
Qed.

Lemma ConstantScalarNode_first_match (flag : bool) (value : float32)
    (arg_name : string) (t : Z) :
  ConstantScalarNode flag value arg_name t =
  Ok (constant_node arg_name (first_match (dispatch_table flag) t value)).
Proof.
  unfold ConstantScalarNode, dispatch_table.
  destruct flag; simpl;
    repeat (case_match; [by rewrite ConstantScalarNode_shape_one|]);
    by rewrite ConstantScalarNode_shape_one.
Qed.

Lemma dispatch_table_NoDup (flag : bool) : NoDup (dispatch_table flag).*1.
Proof.
  destruct flag; apply (bool_decide_unpack _); vm_compute; reflexivity.
Qed.

Lemma first_match_miss table (t : Z) :
  t ∉ table.*1 -> first_match table t = Float.
Proof.
  induction table as [|[tag enc] table IH]; simpl; [done|].
  intros Hnot. apply not_elem_of_cons in Hnot as [Hne Hnot].
  destruct (Z.eqb_spec t tag) as [->|_]; [done | by apply IH].
Qed.

Lemma first_match_hit table (t : Z) enc :
  NoDup table.*1 -> (t, enc) ∈ table -> first_match table t = enc.
Proof.
  induction table as [|[tag enc'] table IH]; simpl; intros Hnd Hin.
  - by apply elem_of_nil in Hin.
  - apply NoDup_cons in Hnd as [Hfresh Hnd].
    apply elem_of_cons in Hin as [Heq|Hin].
    + injection Heq as -> ->. by rewrite Z.eqb_refl.
    + destruct (Z.eqb_spec t tag) as [->|Hne]; [|by apply IH].
      exfalso. apply Hfresh. apply list_elem_of_fmap.
      by exists (tag, enc).
  Qed.

Lemma first_match_Permutation table table' (t : Z) :
  NoDup table.*1 -> table ≡ₚ table' ->
  first_match table t = first_match table' t.
Proof.
  intros Hnd Hperm.
  assert (NoDup table'.*1) as Hnd' by (by rewrite <- Hperm).
  destruct (decide (t ∈ table.*1)) as [Hin|Hnot].
  - apply list_elem_of_fmap in Hin as [[tag enc] [-> Hin]]. simpl.
    rewrite (first_match_hit table tag enc) by done.
    symmetry. apply first_match_hit; [done|]. by rewrite <- Hperm.
  - rewrite first_match_miss by done.
    symmetry. apply first_match_miss. by rewrite <- Hperm.
Qed.

(** C9. [ScalarTensorProto] returns a tensor whose dimensions are the shape
    it was given when that shape is empty or the one-element list [1], and
    throws on every other shape; the element-type overload of
    [ConstantScalarNode] always returns a node whose "value" tensor has the
    dimension list [1], of rank 1. *)
Theorem ScalarTensorProto_shape_contract :
  (forall (value : Scalar) (shp : list Z),
     ScalarTensorProto value shp =
     if bool_decide (shp = [] \/ shp = [1])
     then Ok {| data_type := data_type_of value; dims := shp;
                data := [value] |}
     else Fatal "shape.size() == 0 || (shape.size() == 1 && shape[0] == 1)")
  /\ (forall (flag : bool) (value : float32) (arg_name : string) (t : Z),
       exists nd tp,
         ConstantScalarNode flag value arg_name t = Ok nd
         /\ attributes nd = [("value", AttrTensor tp)]
         /\ dims tp = [1] /\ length (dims tp) = 1%nat).
Proof.
  split.
  - intros value shp. unfold ScalarTensorProto, ORT_ENFORCE_pure.
    pose proof (scalar_shape_ok_spec shp) as Hok.
    destruct (scalar_shape_ok shp); simpl.
    + rewrite bool_decide_eq_true_2 by (by apply Hok).
      by rewrite foldl_add_dims.
    + rewrite bool_decide_eq_false_2; [done|].
      intros H. by apply Hok in H.
  - intros flag value arg_name t.
    rewrite ConstantScalarNode_first_match.
    eexists _, _. repeat split.
Qed.

(** C3. The element-type overload of [ConstantScalarNode] never throws and
    builds exactly one typed constant: the 16-bit float one for FLOAT16, the
    bfloat16 one for BFLOAT16, with the 8-bit types compiled in the
    saturating 8-bit one of each of the four 8-bit tags, and the plain
    32-bit float one for every tag that is not tested; the result depends
    on the tag alone and not on the order of the tests. *)
Theorem ConstantScalarNode_dispatch (flag : bool) (value : float32)
    (arg_name : string) :
  ConstantScalarNode flag value arg_name TensorProto_DataType_FLOAT16
    = Ok (constant_node arg_name (MLFloat16 value))
  /\ ConstantScalarNode flag value arg_name TensorProto_DataType_BFLOAT16
    = Ok (constant_node arg_name (BFloat16 value))
  /\ ConstantScalarNode false value arg_name TensorProto_DataType_FLOAT8E4M3FN
    = Ok (constant_node arg_name (Float8E4M3FN value true))
  /\ ConstantScalarNode false value arg_name
       TensorProto_DataType_FLOAT8E4M3FNUZ
    = Ok (constant_node arg_name (Float8E4M3FNUZ value true))
  /\ ConstantScalarNode false value arg_name TensorProto_DataType_FLOAT8E5M2
    = Ok (constant_node arg_name (Float8E5M2 value true))
  /\ ConstantScalarNode false value arg_name
       TensorProto_DataType_FLOAT8E5M2FNUZ
    = Ok (constant_node arg_name (Float8E5M2FNUZ value true))
  /\ (forall t : Z,
        t ∉ (dispatch_table flag).*1 ->
        ConstantScalarNode flag value arg_name t
        = Ok (constant_node arg_name (Float value)))
  /\ (forall t : Z,
        exists s : Scalar,
          ConstantScalarNode flag value arg_name t
          = Ok (constant_node arg_name s)
          /\ forall s' : Scalar,
               ConstantScalarNode flag value arg_name t
               = Ok (constant_node arg_name s') -> s' = s)
  /\ (forall (t : Z) (table : list (Z * (float32 -> Scalar))),
        table ≡ₚ dispatch_table flag ->
        ConstantScalarNode flag value arg_name t
        = ConstantScalarNode_by_table table value arg_name t).
Proof.
  repeat split; try (by destruct flag).
  - intros t Hnot. rewrite ConstantScalarNode_first_match.
    by rewrite first_match_miss.
  - intros t. rewrite ConstantScalarNode_first_match.
    eexists. split; [done|]. intros s' Heq.
    unfold constant_node in Heq. by simplify_eq.
  - intros t table Hperm. rewrite ConstantScalarNode_first_match.
    unfold ConstantScalarNode_by_table.
    rewrite ConstantScalarNode_shape_one.
    by rewrite (first_match_Permutation (dispatch_table flag) table)
      by (done || apply dispatch_table_NoDup).
Qed.

Lemma ConstantScalarNode_dispatch_witness :
  (7 ∉ (dispatch_table false).*1)
  /\ ConstantScalarNode false float_1_0 "c" 7
     = Ok (constant_node "c" (Float float_1_0))
  /\ ConstantScalarNode false float_1_0 "c" 19
     = ConstantScalarNode_by_table (rev (dispatch_table false))
         float_1_0 "c" 19.
Proof.
  assert (7 ∉ (dispatch_table false).*1) as Hnot.
  { apply (bool_decide_unpack _). vm_compute. reflexivity. }
  assert (rev (dispatch_table false) ≡ₚ dispatch_table false) as Hperm.
  { symmetry. apply Permutation_rev. }
  destruct (ConstantScalarNode_dispatch false float_1_0 "c")
    as (_ & _ & _ & _ & _ & _ & Hdefault & _ & Horder).
  split; [exact Hnot|].
  split; [exact (Hdefault 7 Hnot) | exact (Horder 19 _ Hperm)].
Defined.

Lemma first_match_dispatch_value (flag : bool) (t : Z) (v : float32) :
  scalar_value (first_match (dispatch_table flag) t v) = v.
Proof.
  unfold dispatch_table. destruct flag; simpl; repeat case_match; done.
Qed.

Lemma constant_output_names (flag : bool) (v : float32) (n : string) (t : Z) :
  output_arg_names (ConstantScalarNode flag v n t) = [n].
Proof. by rewrite ConstantScalarNode_first_match. Qed.

(** C8. Each of [ZeroConstantNode], [HalfConstantNode] and
    [OneConstantNode] names its single output by a function of the element
    type alone, so two calls with the same tag give the same name; the name
    differs for two different tags and for two different constructors; the
    constants carry the floats 0.0, 0.5 and 1.0. *)
Theorem constant_nodes_names_and_values (flag : bool) :
  (forall t : Z,
     output_arg_names (ZeroConstantNode flag t)
       = ["ZeroConstant_Type" +:+ pretty t]
     /\ output_arg_names (HalfConstantNode flag t)
       = ["HalfConstant_Type" +:+ pretty t]
     /\ output_arg_names (OneConstantNode flag t)
       = ["OneConstant_Type" +:+ pretty t])
  /\ (forall t1 t2 : Z,
       t1 <> t2 ->
       output_arg_names (ZeroConstantNode flag t1)
         <> output_arg_names (ZeroConstantNode flag t2)
       /\ output_arg_names (HalfConstantNode flag t1)
         <> output_arg_names (HalfConstantNode flag t2)
       /\ output_arg_names (OneConstantNode flag t1)
         <> output_arg_names (OneConstantNode flag t2))
  /\ (forall t1 t2 : Z,
       output_arg_names (ZeroConstantNode flag t1)
         <> output_arg_names (HalfConstantNode flag t2)
       /\ output_arg_names (ZeroConstantNode flag t1)
         <> output_arg_names (OneConstantNode flag t2)
       /\ output_arg_names (HalfConstantNode flag t1)
         <> output_arg_names (OneConstantNode flag t2))
  /\ (forall t : Z,
       exists zero half one : Scalar,
         ZeroConstantNode flag t
           = Ok (constant_node ("ZeroConstant_Type" +:+ pretty t) zero)
         /\ HalfConstantNode flag t
           = Ok (constant_node ("HalfConstant_Type" +:+ pretty t) half)
         /\ OneConstantNode flag t
           = Ok (constant_node ("OneConstant_Type" +:+ pretty t) one)
         /\ scalar_value zero = float_0_0
         /\ scalar_value half = float_0_5
         /\ scalar_value one = float_1_0
         /\ float32_to_Q (scalar_value zero) = 0%Q
         /\ float32_to_Q (scalar_value half) = (1 # 2)%Q
         /\ float32_to_Q (scalar_value one) = 1%Q).
Proof.
  unfold ZeroConstantNode, HalfConstantNode, OneConstantNode.
  split; [|split; [|split]].
  - intros t. by rewrite !constant_output_names.
  - intros t1 t2 Hne. rewrite !constant_output_names.
    repeat split; intros Heq; simplify_eq/=; by apply Hne.
  - intros t1 t2. rewrite !constant_output_names.
    repeat split; intros Heq; simplify_eq/=.
  - intros t. rewrite !ConstantScalarNode_first_match.
    eexists _, _, _. rewrite !first_match_dispatch_value.
    repeat split; vm_compute; reflexivity.
Qed.

Lemma constant_nodes_names_and_values_witness :
  10 <> 16
  /\ output_arg_names (OneConstantNode false 10)
     <> output_arg_names (OneConstantNode false 16).
Proof.
  assert (10 <> 16) as Hne by discriminate.
  split; [exact Hne|].
  destruct (constant_nodes_names_and_values false) as (_ & Hdiff & _).
  exact (proj2 (proj2 (Hdiff 10 16 Hne))).
Defined.

(** ** Forward accessors *)

Lemma forward_arg_alias rn b g defs msg i rs arg alias producer s :
  graph_ b = Some g -> defs !! i = Some arg ->
  GetNodeArg g (rn (NodeArg_Name arg)) = Some alias ->
  GetProducerNode g (NodeArg_Name arg) = Some producer ->
  forward_arg rn b defs msg i rs s =
  (Ok (mkArgDef (NodeArg_Name alias) (TypeAsProto alias)),
   {| stashed_tensors := stashed_tensors s;
      python_op_input_require_grad_info :=
        python_op_input_require_grad_info s;
      log := log s ++ ["Recomputed node arg found for "
                       +:+ Node_Name producer]
   |}).
Proof.
  intros Hg Harg Halias Hprod. unfold forward_arg. rewrite Harg, Hg. simpl.
  unfold mbind, M_bind. simpl. by rewrite Halias, Hprod.
Qed.

Lemma forward_arg_alias_no_producer rn b g defs msg i rs arg alias s :
  graph_ b = Some g -> defs !! i = Some arg ->
  GetNodeArg g (rn (NodeArg_Name arg)) = Some alias ->
  GetProducerNode g (NodeArg_Name arg) = None ->
  forward_arg rn b defs msg i rs s = (NullDeref, s).
Proof.
  intros Hg Harg Halias Hprod. unfold forward_arg. rewrite Harg, Hg. simpl.
  unfold mbind, M_bind. simpl. by rewrite Halias, Hprod.
Qed.

Lemma forward_arg_original rn b g defs msg i rs arg s :
  graph_ b = Some g -> defs !! i = Some arg ->
  GetNodeArg g (rn (NodeArg_Name arg)) = None ->
  forward_arg rn b defs msg i rs s =
  (Ok (mkArgDef (NodeArg_Name arg) (TypeAsProto arg)),
   if rs then
     {| stashed_tensors := {[ NodeArg_Name arg ]} ∪ stashed_tensors s;
        python_op_input_require_grad_info :=
          python_op_input_require_grad_info s;
        log := log s |}
   else s).
Proof.
  intros Hg Harg Halias. unfold forward_arg. rewrite Harg, Hg. simpl.
  unfold mbind, M_bind. simpl. rewrite Halias. by destruct rs.
Qed.

Lemma forward_arg_out_of_range rn b defs msg i rs s :
  defs !! i = None -> forward_arg rn b defs msg i rs s = (Fatal msg, s).
Proof. intros Hnone. unfold forward_arg. by rewrite Hnone. Qed.

Lemma forward_arg_null_graph rn b defs msg i rs arg s :
  graph_ b = None -> defs !! i = Some arg ->
  forward_arg rn b defs msg i rs s = (NullDeref, s).
Proof. intros Hg Harg. unfold forward_arg. by rewrite Harg, Hg. Qed.

(** C1, as the code has it.  On a builder whose graph pointer is set, for
    an index in range of the forward node's inputs: when the graph holds a
    recomputed alias of the argument's name and a producer node of that
    name, [I] returns the name and type of the alias and leaves the stashed
    tensors as they are; when the graph holds no alias, [I] returns the
    forward argument's own name and type, and the stashed tensors gain that
    name if [record_stashing] is set and are left as they are otherwise.
    [O] does the same on the outputs. *)
Theorem accessor_recompute_redirection
    (RecomputeName : string -> string) (b : GradientBuilderBase) (g : Graph)
    (i : nat) (record_stashing : bool) (s : Shared) :
  graph_ b = Some g ->
  ((i < length (InputDefs (node_ b)))%nat ->
   exists arg, InputDefs (node_ b) !! i = Some arg /\
     match GetNodeArg g (RecomputeName (NodeArg_Name arg)) with
     | Some alias =>
         is_Some (GetProducerNode g (NodeArg_Name arg)) ->
         (I RecomputeName b i record_stashing s).1
           = Ok (mkArgDef (NodeArg_Name alias) (TypeAsProto alias))
         /\ stashed_tensors (I RecomputeName b i record_stashing s).2
           = stashed_tensors s
     | None =>
         (I RecomputeName b i record_stashing s).1
           = Ok (mkArgDef (NodeArg_Name arg) (TypeAsProto arg))
         /\ stashed_tensors (I RecomputeName b i record_stashing s).2
           = if record_stashing
             then {[ NodeArg_Name arg ]} ∪ stashed_tensors s
             else stashed_tensors s
     end)
  /\
  ((i < length (OutputDefs (node_ b)))%nat ->
   exists arg, OutputDefs (node_ b) !! i = Some arg /\
     match GetNodeArg g (RecomputeName (NodeArg_Name arg)) with
     | Some alias =>
         is_Some (GetProducerNode g (NodeArg_Name arg)) ->
         (O RecomputeName b i record_stashing s).1
           = Ok (mkArgDef (NodeArg_Name alias) (TypeAsProto alias))
         /\ stashed_tensors (O RecomputeName b i record_stashing s).2
           = stashed_tensors s
     | None =>
         (O RecomputeName b i record_stashing s).1
           = Ok (mkArgDef (NodeArg_Name arg) (TypeAsProto arg))
         /\ stashed_tensors (O RecomputeName b i record_stashing s).2
           = if record_stashing
             then {[ NodeArg_Name arg ]} ∪ stashed_tensors s
             else stashed_tensors s
     end).
Proof.
  intros Hg. unfold I, O. split; intros Hlt;
    apply lookup_lt_is_Some_2 in Hlt as [arg Harg];
    exists arg; (split; [done|]);
    destruct (GetNodeArg g (RecomputeName (NodeArg_Name arg)))
      as [alias|] eqn:Halias.
  - intros [producer Hprod].
    by rewrite (forward_arg_alias _ _ g _ _ _ _ arg alias producer).
  - rewrite (forward_arg_original _ _ g _ _ _ _ arg) by done.
    by destruct record_stashing.
  - intros [producer Hprod].
    by rewrite (forward_arg_alias _ _ g _ _ _ _ arg alias producer).
  - rewrite (forward_arg_original _ _ g _ _ _ _ arg) by done.
    by destruct record_stashing.
Qed.

Lemma accessor_recompute_redirection_witness :
  (I example_RecomputeName example_builder 0 true example_shared).1
    = Ok (mkArgDef "X_recompute" (Some example_type))
  /\ stashed_tensors
       (I example_RecomputeName example_builder 0 true example_shared).2 = ∅
  /\ (I example_RecomputeName example_builder 1 true example_shared).1
    = Ok (mkArgDef "Y" None)
  /\ stashed_tensors
       (I example_RecomputeName example_builder 1 true example_shared).2
     = {[ "Y" ]} ∪ ∅
  /\ stashed_tensors
       (O example_RecomputeName example_builder 0 false example_shared).2 = ∅.
Proof.
  pose proof (accessor_recompute_redirection example_RecomputeName
                example_builder example_graph 0 true example_shared
                eq_refl) as [HI0 _].
  pose proof (accessor_recompute_redirection example_RecomputeName
                example_builder example_graph 1 true example_shared
                eq_refl) as [HI1 _].
  pose proof (accessor_recompute_redirection example_RecomputeName
                example_builder example_graph 0 false example_shared
                eq_refl) as [_ HO0].
  destruct HI0 as (a0 & Ha0 & H0); [simpl; lia|].
  destruct HI1 as (a1 & Ha1 & H1); [simpl; lia|].
  destruct HO0 as (o0 & Ho0 & H2); [simpl; lia|].
  simpl in Ha0, Ha1, Ho0.
  injection Ha0 as <-. injection Ha1 as <-. injection Ho0 as <-.
  destruct (H0 (ex_intro _ example_producer eq_refl)) as [H0a H0b].
  destruct H1 as [H1 H1']. destruct H2 as [_ H2'].
  repeat split; assumption.
Defined.

(** C1, as stated, fails in two places.  With a null graph pointer no alias
    can be found, yet [I] on an index in range does not return the forward
    name: it dereferences the null pointer.  And on a graph that holds an
    argument named as the alias of [X] while no node produces [X], [I] does
    not return the alias: the log statement dereferences the null producer;
    nothing is stashed or logged in either case. *)
Lemma accessor_recompute_redirection_not_total :
  ((1 < length (InputDefs (node_ example_builder_no_graph)))%nat
   /\ graph_ example_builder_no_graph = None
   /\ I example_RecomputeName example_builder_no_graph 1 true example_shared
      = (NullDeref, example_shared))
  /\
  ((0 < length (InputDefs (node_ example_builder_no_producer)))%nat
   /\ GetNodeArg example_graph_no_producer (example_RecomputeName "X")
      = Some (mkNodeArg "X_recompute" (Some example_type))
   /\ GetProducerNode example_graph_no_producer "X" = None
   /\ I example_RecomputeName example_builder_no_producer 0 true
        example_shared
      = (NullDeref, example_shared)).
Proof. repeat split; simpl; lia. Qed.

(** ** Gradient availability and opset queries *)

(** C7. [IsGradientRequiredForSrcNodeInput] returns false, without
    throwing, for an index at or beyond the number of forward inputs, and
    otherwise tells whether the name of that input is in the set of names
    that require a gradient; [IsGradientAvailableForSrcNodeOutput] does the
    same on the outputs against the set of available gradients. *)
Theorem gradient_membership_queries (b : GradientBuilderBase) (i : nat) :
  ((length (InputDefs (node_ b)) <= i)%nat ->
     IsGradientRequiredForSrcNodeInput b i = Ok false)
  /\ (forall arg, InputDefs (node_ b) !! i = Some arg ->
       exists r, IsGradientRequiredForSrcNodeInput b i = Ok r
                 /\ (r = true <-> NodeArg_Name arg ∈ gradient_outputs_ b))
  /\ ((length (OutputDefs (node_ b)) <= i)%nat ->
       IsGradientAvailableForSrcNodeOutput b i = Ok false)
  /\ (forall arg, OutputDefs (node_ b) !! i = Some arg ->
       exists r, IsGradientAvailableForSrcNodeOutput b i = Ok r
                 /\ (r = true <-> NodeArg_Name arg ∈ gradient_inputs_ b)).
Proof.
  unfold IsGradientRequiredForSrcNodeInput,
    IsGradientAvailableForSrcNodeOutput.
  repeat split.
  - intros Hge. rewrite bool_decide_eq_false_2; [done | lia].
  - intros arg Harg. rewrite Harg.
    rewrite bool_decide_eq_true_2 by (by eapply lookup_lt_Some).
    eexists. split; [done|]. apply bool_decide_eq_true.
  - intros Hge. rewrite bool_decide_eq_false_2; [done | lia].
  - intros arg Harg. rewrite Harg.
    rewrite bool_decide_eq_true_2 by (by eapply lookup_lt_Some).
    eexists. split; [done|]. apply bool_decide_eq_true.
Qed.

Lemma gradient_membership_queries_witness :
  IsGradientRequiredForSrcNodeInput example_builder 2 = Ok false
  /\ IsGradientAvailableForSrcNodeOutput example_builder 1 = Ok false
  /\ (exists r, IsGradientRequiredForSrcNodeInput example_builder 0 = Ok r
               /\ (r = true <-> "X" ∈ gradient_outputs_ example_builder)).
Proof.
  destruct (gradient_membership_queries example_builder 2)
    as (Hin & _ & _ & _).
  destruct (gradient_membership_queries example_builder 1)
    as (_ & _ & Hout & _).
  destruct (gradient_membership_queries example_builder 0)
    as (_ & Hmem & _ & _).
  split; [apply Hin; simpl; lia|].
  split; [apply Hout; simpl; lia|].
  exact (Hmem (mkNodeArg "X" (Some example_type)) eq_refl).
Defined.

(** C10. [OnnxOpSetVersion] never throws: with a graph whose
    domain-to-version map has an entry for the ONNX domain it returns that
    entry, and it returns -1 when the graph pointer is null or the map has
    no such entry. *)
Theorem OnnxOpSetVersion_total (b : GradientBuilderBase) :
  OnnxOpSetVersion b =
  Ok (match graph_ b with
      | Some g =>
          match DomainToVersionMap g !! kOnnxDomain with
          | Some version => version
          | None => -1
          end
      | None => -1
      end)
  /\ is_Ok (OnnxOpSetVersion b) = true.
Proof.
  assert (OnnxOpSetVersion b =
          Ok (match graph_ b with
              | Some g =>
                  match DomainToVersionMap g !! kOnnxDomain with
                  | Some version => version
                  | None => -1
                  end
              | None => -1
              end)) as Heq.
  { unfold OnnxOpSetVersion, map_at. destruct (graph_ b) as [g|]; [|done].
    destruct (DomainToVersionMap g !! kOnnxDomain) as [v|] eqn:Hv.
    - by rewrite bool_decide_eq_true_2.
    - rewrite bool_decide_eq_false_2; [done|]. by intros []. }
  split; [exact Heq | by rewrite Heq].
Qed.

(** ** The degenerate builders *)

(** C5. [GetGradientDefs] of an [EmptyGradientBuilder] returns the empty
    list of nodes and leaves the shared state, the stashed tensors with it,
    as it was; [GetGradientDefs] of an [UnSupportedGradientBuilder] throws
    in every state and returns no list. *)
Theorem degenerate_builders :
  (forall (t : EmptyGradientBuilder) (s : Shared),
     GetGradientDefs t s = (Ok [], s)
     /\ stashed_tensors (GetGradientDefs t s).2 = stashed_tensors s)
  /\ (forall (t : UnSupportedGradientBuilder) (s : Shared),
       GetGradientDefs t s =
         (Fatal "Gradient should not be requested for this operator", s)
       /\ forall defs : GradientDef, (GetGradientDefs t s).1 <> Ok defs).
Proof. split; intros t s; split; done. Qed.

(** ** The stashed tensors only grow *)

Lemma stash_grows_ret {A} (a : A) : stash_grows (mret a).
Proof. intros s. done. Qed.

Lemma stash_grows_throw {A} (msg : string) : stash_grows (@throw A msg).
Proof. intros s. done. Qed.

Lemma stash_grows_lift {A} (r : Outcome A) : stash_grows (lift r).
Proof. intros s. done. Qed.

Lemma stash_grows_deref {A} (p : option A) : stash_grows (deref p).
Proof. intros s. by destruct p. Qed.

Lemma stash_grows_LOGS_INFO (msg : string) : stash_grows (LOGS_INFO msg).
Proof. intros s. done. Qed.

Lemma stash_grows_RecordStashedTensor (n : string) :
  stash_grows (RecordStashedTensor n).
Proof. intros s. simpl. apply union_subseteq_r. Qed.

Lemma stash_grows_bind {A B} (m : M A) (k : A -> M B) :
  stash_grows m -> (forall a, stash_grows (k a)) -> stash_grows (m ≫= k).
Proof.
  intros Hm Hk s. unfold mbind, M_bind.
  specialize (Hm s). destruct (m s) as [[a|msg|] s']; simpl in *; try done.
  etrans; [exact Hm | apply Hk].
Qed.

Create HintDb stash discriminated.
#[local] Hint Resolve stash_grows_ret stash_grows_throw stash_grows_lift
  stash_grows_deref stash_grows_LOGS_INFO stash_grows_RecordStashedTensor
  : stash.

Ltac stash_step :=
  repeat first
    [ apply stash_grows_bind; [|intros ?]
    | solve [auto with stash]
    | case_match ].

Lemma stash_grows_forward_arg rn b defs msg i rs :
  stash_grows (forward_arg rn b defs msg i rs).
Proof. unfold forward_arg. stash_step. Qed.

Lemma stash_grows_call rn b {X} (c : BaseCall X) : stash_grows (call rn b c).
Proof.
  destruct c; simpl;
    try apply stash_grows_forward_arg;
    unfold IElemType, OElemType;
    unfold IsTensorStashed, GI, GI_type, GO, IType, OType,
      GetSrcNodeInputSize, GetSrcNodeOutputSize, ORT_ENFORCE;
    try (intros s; done); stash_step.
Qed.

Lemma stash_grows_run_body rn b {A} (p : Body A) :
  stash_grows (run_body rn b p).
Proof.
  induction p as [a|msg|X c k IH]; simpl; auto with stash.
  apply stash_grows_bind; [apply stash_grows_call | exact IH].
Qed.

Lemma stash_grows_GetGradientDefs_over b (impl : M GradientDef) :
  stash_grows impl -> stash_grows (GetGradientDefs_over b impl).
Proof.
  intros Himpl. unfold GetGradientDefs_over.
  apply stash_grows_bind; [done | auto with stash].
Qed.

Lemma stash_grows_run_pass rn (builders : list BodyBuilder) :
  stash_grows (run_pass rn builders).
Proof.
  induction builders as [|t rest IH]; simpl; auto with stash.
  apply stash_grows_bind.
  - apply stash_grows_GetGradientDefs_over. apply stash_grows_run_body.
  - intros d. apply stash_grows_bind; [done | auto with stash].
Qed.

Lemma stash_adds_at_most_forward_arg rn b defs msg i rs arg :
  defs !! i = Some arg ->
  stash_adds_at_most (NodeArg_Name arg) (forward_arg rn b defs msg i rs).
Proof.
  intros Harg s. destruct (graph_ b) as [g|] eqn:Hg.
  - destruct (GetNodeArg g (rn (NodeArg_Name arg))) as [alias|] eqn:Ha.
    + destruct (GetProducerNode g (NodeArg_Name arg)) as [p|] eqn:Hp.
      * rewrite (forward_arg_alias _ _ g _ _ _ _ arg alias p) by done.
        by left.
      * rewrite (forward_arg_alias_no_producer _ _ g _ _ _ _ arg alias)
          by done.
        by left.
    + rewrite (forward_arg_original _ _ g _ _ _ _ arg) by done.
      destruct rs; [by right | by left].
  - rewrite (forward_arg_null_graph _ _ _ _ _ _ arg) by done. by left.
Qed.

Lemma stash_adds_at_most_run_accessor rn (c : AccessorCall) (n : string) :
  NodeArg_Name <$> accessor_arg c = Some n ->
  stash_adds_at_most n (run_accessor rn c).
Proof.
  destruct c as [b i rs|b i rs]; simpl; intros Hn;
    apply fmap_Some in Hn as (arg & Harg & ->);
    by apply stash_adds_at_most_forward_arg.
Qed.

Lemma stash_adds_at_most_run_accessors rn (cs : list AccessorCall)
    (n : string) :
  Forall (fun c => NodeArg_Name <$> accessor_arg c = Some n) cs ->
  stash_adds_at_most n (run_accessors rn cs).
Proof.
  induction 1 as [|c cs Hc _ IH]; intros s; simpl; [by left|].
  unfold mbind, M_bind.
  pose proof (stash_adds_at_most_run_accessor rn c n Hc s) as H1.
  destruct (run_accessor rn c s) as [[a|msg|] s1]; simpl in *; try done.
  specialize (IH s1).
  destruct (run_accessors rn cs s1) as [[r|msg|] s2]; simpl in *;
    destruct H1 as [H1|H1], IH as [IH|IH]; rewrite IH, H1;
    first [by left | by right
          | right; by rewrite (assoc_L (∪)), (idemp_L (∪))].
Qed.

(** C6. No member function of the base takes a name out of the stashed
    tensors: after any protected call, and after a whole pass of builders
    whose bodies are made of such calls, the set contains what it held
    before.  Any number of [I] and [O] calls, on any builders, that ask for
    forward arguments of one name [n] leave the set either as it was or with
    [n] added, and leave it as it was when it already held [n]. *)
Theorem stashed_tensors_insert_only (RecomputeName : string -> string) :
  (forall (b : GradientBuilderBase) (X : Type) (c : BaseCall X) (s : Shared),
     stashed_tensors s ⊆ stashed_tensors (call RecomputeName b c s).2)
  /\ (forall (builders : list BodyBuilder) (s : Shared),
       stashed_tensors s
       ⊆ stashed_tensors (run_pass RecomputeName builders s).2)
  /\ (forall (cs : list AccessorCall) (n : string) (s : Shared),
       Forall (fun c => NodeArg_Name <$> accessor_arg c = Some n) cs ->
       (stashed_tensors (run_accessors RecomputeName cs s).2
          = stashed_tensors s
        \/ stashed_tensors (run_accessors RecomputeName cs s).2
          = {[ n ]} ∪ stashed_tensors s)
       /\ (n ∈ stashed_tensors s ->
           stashed_tensors (run_accessors RecomputeName cs s).2
           = stashed_tensors s)).
Proof.
  split; [|split].
  - intros b X c s. apply stash_grows_call.
  - intros builders s. apply stash_grows_run_pass.
  - intros cs n s Hcs.
    pose proof (stash_adds_at_most_run_accessors RecomputeName cs n Hcs s)
      as Hs.
    split; [exact Hs|].
    intros Hin. destruct Hs as [->| ->]; [done|].
    apply subseteq_union_1_L. by apply singleton_subseteq_l.
Qed.

Lemma stashed_tensors_insert_only_witness :
  stashed_tensors
    (run_accessors example_RecomputeName
       [Acc_I example_builder 1 true; Acc_I example_builder_2 1 true;
        Acc_I example_builder 1 false; Acc_I example_builder 1 true]
       example_shared).2 = ∅
  \/ stashed_tensors
    (run_accessors example_RecomputeName
       [Acc_I example_builder 1 true; Acc_I example_builder_2 1 true;
        Acc_I example_builder 1 false; Acc_I example_builder 1 true]
       example_shared).2 = {[ "Y" ]} ∪ ∅.
Proof.
  destruct (stashed_tensors_insert_only example_RecomputeName)
    as (_ & _ & Hacc).
  refine (proj1 (Hacc _ "Y" example_shared _)).
  repeat constructor.
Defined.

(** ** Broadcasting without broadcast *)

Lemma broadcast_pair_same (d : Dimension) (node_name : string) :
  broadcast_pair d d node_name = Ok (false, false).
Proof.
  destruct d as [v|p]; simpl.
  - by rewrite Z.eqb_refl.
  - by rewrite bool_decide_eq_true_2.
Qed.

Lemma broadcast_walk_same (l : list Dimension) (k : Z) (A_axes B_axes : list Z)
    (node_name : string) :
  broadcast_walk l l k A_axes B_axes node_name = Ok (A_axes, B_axes).
Proof.
  revert k. induction l as [|d l IH]; intros k; simpl; [done|].
  rewrite broadcast_pair_same. simpl. apply IH.
Qed.

(** C4. For two dimension lists of the same rank that are equal element by
    element, [ComputeBroadcastBackwardAxes] returns two empty lists of
    reduce axes; [HandleBroadcasting] called with an empty list of reduce
    axes returns the list of nodes it was given, with nothing appended. *)
Theorem no_broadcast_no_reduction :
  (forall (A_dims B_dims : list Dimension) (node_name : string),
     Forall2 eq A_dims B_dims ->
     ComputeBroadcastBackwardAxes A_dims B_dims node_name = Ok ([], []))
  /\ (forall (b : GradientBuilderBase) (input_grad target output_grad : ArgDef)
        (output : list NodeDef),
       HandleBroadcasting b input_grad target output_grad [] output = output
       /\ length (HandleBroadcasting b input_grad target output_grad []
                    output) = length output).
Proof.
  split.
  - intros A_dims B_dims node_name Heq.
    apply list_eq_Forall2 in Heq as ->.
    unfold ComputeBroadcastBackwardAxes. apply broadcast_walk_same.
  - intros b input_grad target output_grad output. by split.
Qed.

Lemma no_broadcast_no_reduction_witness :
  ComputeBroadcastBackwardAxes
    [dim_value 8; dim_param "batch"; dim_value 1]
    [dim_value 8; dim_param "batch"; dim_value 1] "add0" = Ok ([], []).
Proof.
  refine (proj1 no_broadcast_no_reduction _ _ "add0" _).
  repeat constructor.
Defined.

(** ** Names of the returned nodes *)

Lemma has_char_app (c : ascii) (s1 s2 : string) :
  has_char c (s1 +:+ s2) = has_char c s1 || has_char c s2.
Proof.
  induction s1 as [|c' s1 IH]; simpl; [done|].
  by rewrite IH, orb_assoc.
Qed.

Lemma app_nonempty_r (s1 s2 : string) : s2 <> "" -> s1 +:+ s2 <> "".
Proof. destruct s1; simpl; [done | discriminate]. Qed.

(** A string is cut in one way only at its last occurrence of [c]. *)
Lemma app_separator_inj (c : ascii) (s1 s2 d1 d2 : string) :
  has_char c d1 = false -> has_char c d2 = false ->
  s1 +:+ String c d1 = s2 +:+ String c d2 -> s1 = s2 /\ d1 = d2.
Proof.
  intros Hd1 Hd2. revert s2.
  induction s1 as [|a s1 IH]; intros [|a' s2] Heq; simpl in Heq.
  - by simplify_eq.
  - simplify_eq. rewrite has_char_app in Hd1. simpl in Hd1.
    rewrite bool_decide_eq_true_2 in Hd1 by done.
    by rewrite orb_true_r in Hd1.
  - simplify_eq. rewrite has_char_app in Hd2. simpl in Hd2.
    rewrite bool_decide_eq_true_2 in Hd2 by done.
    by rewrite orb_true_r in Hd2.
  - simplify_eq. destruct (IH s2) as [-> ->]; done.
Qed.

Lemma pretty_N_go_no_underscore (x : N) (s : string) :
  has_char "_" s = false -> has_char "_" (pretty_N_go x s) = false.
Proof.
  revert s. induction (N.lt_wf_0 x) as [x _ IH]; intros s Hs.
  destruct (decide (x = 0)%N) as [->|Hx].
  - by rewrite pretty_N_go_0.
  - rewrite pretty_N_go_step by lia. apply IH.
    + apply N.div_lt; lia.
    + simpl. rewrite Hs. unfold pretty_N_char. by repeat case_match.
Qed.

Lemma pretty_nat_no_underscore (i : nat) :
  has_char "_" (pretty i) = false.
Proof.
  unfold pretty, pretty_nat, pretty, pretty_N. case_decide; [done|].
  by apply pretty_N_go_no_underscore.
Qed.

Lemma auto_name_inj b (op1 op2 : string) (i j : nat) :
  Name b (op1 +:+ "_" +:+ pretty i) = Name b (op2 +:+ "_" +:+ pretty j) ->
  op1 = op2 /\ i = j.
Proof.
  unfold Name. intros Heq. apply (inj _) in Heq.
  apply app_separator_inj in Heq as [-> Hij];
    [|apply pretty_nat_no_underscore..].
  split; [done|]. by apply (inj pretty).
Qed.

Lemma auto_name_nonempty b (op : string) (i : nat) :
  Name b (op +:+ "_" +:+ pretty i) <> "".
Proof. unfold Name. do 2 apply app_nonempty_r. done. Qed.

Lemma finalize_names_imap b (k : nat) (l : list NodeDef) :
  finalize_names b k l = imap (fun i => finalize_name b (k + i)) l.
Proof.
  revert k. induction l as [|nd l IH]; intros k; simpl; [done|].
  rewrite Nat.add_0_r. f_equal. rewrite IH.
  apply imap_ext. intros i x _. simpl. f_equal. lia.
Qed.

Lemma finalize_names_lookup b (l : list NodeDef) (i : nat) :
  finalize_names b 0 l !! i = finalize_name b i <$> l !! i.
Proof. rewrite finalize_names_imap. by rewrite list_lookup_imap. Qed.

Lemma finalize_name_nonempty b (i : nat) (nd : NodeDef) :
  node_name (finalize_name b i nd) <> "".
Proof.
  unfold finalize_name. case_bool_decide; [|done].
  apply auto_name_nonempty.
Qed.

(** C2, as the code has it.  When [GetGradientDefsImpl] returns,
    [GetGradientDefs] returns a list of the same length in the state the
    implementation left: a node whose name was empty gets the builder's
    prefix followed by its op_type, an underscore and its index; a node with
    a name is returned as it was; no returned name is empty; two nodes that
    were both left unnamed get two different names; and all returned names
    are different provided the implementation gave no name twice and gave
    no node the name a node it left unnamed is assigned. *)
Theorem GetGradientDefs_names {T : Type} `{GradientBuilder T} (t : T)
    (s : Shared) (impl_defs : GradientDef) :
  (GetGradientDefsImpl t s).1 = Ok impl_defs ->
  exists defs : GradientDef,
    GetGradientDefs t s = (Ok defs, (GetGradientDefsImpl t s).2)
    /\ length defs = length impl_defs
    /\ (forall i nd, impl_defs !! i = Some nd ->
         defs !! i =
         Some (if bool_decide (node_name nd = "")
               then set_name nd
                      (unique_node_prefix_ (base t)
                       +:+ op_type nd +:+ "_" +:+ pretty i)
               else nd))
    /\ Forall (fun nd => node_name nd <> "") defs
    /\ (forall i j ndi ndj, i <> j ->
         impl_defs !! i = Some ndi -> impl_defs !! j = Some ndj ->
         node_name ndi = "" -> node_name ndj = "" ->
         node_name <$> defs !! i <> node_name <$> defs !! j)
    /\ ((forall i j ndi ndj,
           impl_defs !! i = Some ndi -> impl_defs !! j = Some ndj ->
           node_name ndi <> "" -> node_name ndi = node_name ndj -> i = j) ->
        (forall i j ndi ndj,
           impl_defs !! i = Some ndi -> impl_defs !! j = Some ndj ->
           node_name ndi = "" ->
           node_name ndj
           <> unique_node_prefix_ (base t)
              +:+ op_type ndi +:+ "_" +:+ pretty i) ->
        NoDup (node_name <$> defs)).
Proof.
  intros Himpl. exists (finalize_names (base t) 0 impl_defs).
  split; [|split; [|split; [|split; [|split]]]].
  - unfold GetGradientDefs, GetGradientDefs_over, mbind, M_bind.
    destruct (GetGradientDefsImpl t s) as [r s']. simpl in Himpl.
    by rewrite Himpl.
  - rewrite finalize_names_imap. apply length_imap.
  - intros i nd Hnd. rewrite finalize_names_lookup, Hnd. done.
  - apply Forall_lookup. intros i nd.
    rewrite finalize_names_lookup. intros Hnd.
    apply fmap_Some in Hnd as (nd0 & _ & ->).
    apply finalize_name_nonempty.
  - intros i j ndi ndj Hij Hi Hj Hei Hej.
    rewrite !finalize_names_lookup, Hi, Hj. simpl.
    unfold finalize_name. rewrite !bool_decide_eq_true_2 by done.
    simpl. intros Heq. injection Heq as Heq.
    apply auto_name_inj in Heq as [_ Heq]. done.
  - intros Hgiven Hfresh. apply NoDup_alt. intros i j x Hi Hj.
    rewrite list_lookup_fmap, finalize_names_lookup in Hi, Hj.
    destruct (impl_defs !! i) as [ndi|] eqn:Hndi; [|done].
    destruct (impl_defs !! j) as [ndj|] eqn:Hndj; [|done].
    simpl in Hi, Hj. injection Hi as Hi. injection Hj as Hj.
    unfold finalize_name in Hi, Hj.
    destruct (bool_decide_reflect (node_name ndi = "")) as [Hei|Hni];
      destruct (bool_decide_reflect (node_name ndj = "")) as [Hej|Hnj];
      simpl in Hi, Hj.
    + rewrite <- Hj in Hi. by apply auto_name_inj in Hi as [_ ?].
    + exfalso. apply (Hfresh i j ndi ndj Hndi Hndj Hei).
      rewrite Hj, <- Hi. done.
    + exfalso. apply (Hfresh j i ndj ndi Hndj Hndi Hej).
      rewrite Hi, <- Hj. done.
    + apply (Hgiven i j ndi ndj Hndi Hndj Hni). congruence.
Qed.

Lemma GetGradientDefs_names_witness :
  exists defs : GradientDef,
    @GetGradientDefs _ (BodyBuilder_builder example_RecomputeName)
      example_body_builder example_shared
    = (Ok defs,
       {| stashed_tensors := {[ "Y" ]} ∪ ∅;
          python_op_input_require_grad_info := ∅; log := [] |})
    /\ node_name <$> defs !! 1%nat = Some "add0_Grad/Identity_1"
    /\ NoDup (node_name <$> defs).
Proof.
  pose (impl_defs :=
    [NodeDef_ctor "Identity" [mkArgDef "Z_grad" (Some example_type)]
       [mkArgDef "X_grad" (Some example_type)] [];
     NodeDef_ctor "Identity" [mkArgDef "Z_grad" (Some example_type)]
       [mkArgDef "Y_grad" None] []]).
  assert ((@GetGradientDefsImpl _ (BodyBuilder_builder example_RecomputeName)
             example_body_builder example_shared).1 = Ok impl_defs) as Himpl
    by reflexivity.
  destruct (@GetGradientDefs_names _
              (BodyBuilder_builder example_RecomputeName)
              example_body_builder example_shared impl_defs Himpl)
    as (defs & Hrun & _ & Hat & _ & _ & Hdistinct).
  exists defs. split; [exact Hrun|]. split.
  - by rewrite (Hat 1%nat _ eq_refl).
  - apply Hdistinct.
    + intros [|[|i]] j ndi ndj Hi Hj Hne; simpl in Hi; simplify_eq;
        by destruct Hne.
    + intros [|[|i]] [|[|j]] ndi ndj Hi Hj _; simpl in Hi, Hj; simplify_eq;
        discriminate.
Defined.

(** C2, as stated, fails: a builder whose implementation names two nodes
    alike gets both back under that one name. *)
Lemma GetGradientDefs_names_not_distinct :
  (GetGradientDefs (mkTwiceNamed example_builder) example_shared).1
    = Ok twice_named_defs
  /\ node_name <$> twice_named_defs = ["scale"; "scale"]
  /\ ~ NoDup (node_name <$> twice_named_defs).
Proof.
  repeat split. simpl. intros Hnd.
  apply NoDup_cons in Hnd as [Hnot _]. apply Hnot. by left.
Qed.

(** * Further properties of the header *)

(** ** Strings *)

Lemma string_app_cons (c : ascii) (s1 s2 : string) :
  String c s1 +:+ s2 = String c (s1 +:+ s2).
Proof. reflexivity. Qed.

Lemma string_app_length (s1 s2 : string) :
  String.length (s1 +:+ s2) = (String.length s1 + String.length s2)%nat.
Proof.
  induction s1 as [|c s1 IH]; [done|].
  rewrite string_app_cons. simpl. by rewrite IH.
Qed.

Lemma string_app_assoc (s1 s2 s3 : string) :
  (s1 +:+ s2) +:+ s3 = s1 +:+ (s2 +:+ s3).
Proof.
  induction s1 as [|c s1 IH]; [done|].
  rewrite !string_app_cons. by f_equal.
Qed.

Lemma string_app_inj_r (s1 s2 t : string) :
  s1 +:+ t = s2 +:+ t -> s1 = s2.
Proof.
  revert s2. induction s1 as [|a s1 IH]; intros [|a' s2] Heq.
  - done.
  - apply (f_equal String.length) in Heq.
    rewrite !string_app_length in Heq. simpl in Heq. lia.
  - apply (f_equal String.length) in Heq.
    rewrite !string_app_length in Heq. simpl in Heq. lia.
  - rewrite !string_app_cons in Heq. injection Heq as -> Heq.
    f_equal. by apply IH.
Qed.

Lemma string_app_neq_self (s t : string) : t <> "" -> s +:+ t <> s.
Proof.
  intros Ht Heq. apply (f_equal String.length) in Heq.
  rewrite string_app_length in Heq. destruct t; [done | simpl in Heq; lia].
Qed.

Lemma last_char_app (s t : string) :
  t <> "" -> last_char (s +:+ t) = last_char t.
Proof.
  intros Ht. induction s as [|c s IH]; simpl; [done|].
  rewrite IH. destruct (s +:+ t) eqn:Happ; [|done].
  destruct s; simpl in Happ; [done | discriminate].
Qed.

(** A string is cut in one way only at its first occurrence of [c]. *)
Lemma app_first_separator_inj (c : ascii) (a1 a2 r1 r2 : string) :
  has_char c a1 = false -> has_char c a2 = false ->
  a1 +:+ String c r1 = a2 +:+ String c r2 -> a1 = a2 /\ r1 = r2.
Proof.
  revert a2. induction a1 as [|x a1 IH]; intros [|y a2] H1 H2 Heq;
    simpl in *.
  - by simplify_eq.
  - simplify_eq. by rewrite bool_decide_eq_true_2 in H2.
  - simplify_eq. by rewrite bool_decide_eq_true_2 in H1.
  - injection Heq as -> Heq.
    apply orb_false_iff in H1 as [_ H1]. apply orb_false_iff in H2 as [_ H2].
    destruct (IH a2 H1 H2 Heq) as [-> ->]. done.
Qed.

Lemma app_eq_prefix (p1 p2 s1 s2 : string) :
  p1 +:+ s1 = p2 +:+ s2 ->
  (exists r, p2 = p1 +:+ r) \/ (exists r, p1 = p2 +:+ r).
Proof.
  revert p2. induction p1 as [|x p1 IH]; intros p2 Heq.
  - left. by exists p2.
  - destruct p2 as [|y p2]; [right; by eexists|].
    simpl in Heq. injection Heq as -> Heq.
    destruct (IH p2 Heq) as [[r ->]|[r ->]]; [left | right]; by exists r.
Qed.

(** ** Gradient and external names *)

(** X1. [GradientName] and [ExternalOutputName] are injective, never give
    the name they were given, and never give the same name as each other. *)
Theorem GradientName_separates (n m : string) :
  (GradientName n = GradientName m <-> n = m)
  /\ (ExternalOutputName n = ExternalOutputName m <-> n = m)
  /\ GradientName n <> ExternalOutputName m
  /\ GradientName n <> n
  /\ ExternalOutputName n <> n.
Proof.
  unfold GradientName, ExternalOutputName. repeat split.
  - apply string_app_inj_r.
  - by intros ->.
  - apply string_app_inj_r.
  - by intros ->.
  - intros Heq. apply (f_equal last_char) in Heq.
    rewrite !last_char_app in Heq by done. discriminate.
  - by apply string_app_neq_self.
  - by apply string_app_neq_self.
Qed.

Lemma GI_run b (i : nat) (s : Shared) :
  GI b i s =
  (match InputDefs (node_ b) !! i with
   | Some arg => Ok (mkArgDef (GradientName (NodeArg_Name arg))
                              (TypeAsProto arg))
   | None => Fatal "i < node_->InputDefs().size()"
   end, s).
Proof. unfold GI. by destruct (InputDefs (node_ b) !! i). Qed.

Lemma GO_run b (i : nat) (s : Shared) :
  GO b i s =
  (match OutputDefs (node_ b) !! i with
   | Some arg => Ok (mkArgDef (GradientName (NodeArg_Name arg))
                              (TypeAsProto arg))
   | None => Fatal "i < node_->OutputDefs().size()"
   end, s).
Proof. unfold GO. by destruct (OutputDefs (node_ b) !! i). Qed.

Lemma GI_type_run b (i : nat) (type : option TypeProto) (s : Shared) :
  GI_type b i type s =
  (match InputDefs (node_ b) !! i with
   | Some arg => Ok (mkArgDef (GradientName (NodeArg_Name arg)) type)
   | None => Fatal "i < node_->InputDefs().size()"
   end, s).
Proof. unfold GI_type. by destruct (InputDefs (node_ b) !! i). Qed.

Lemma lookup_is_Ok {A B} (l : list A) (i : nat) (f : A -> B) (msg : string) :
  is_Ok (match l !! i with Some a => Ok (f a) | None => Fatal msg end) = true
  <-> (i < length l)%nat.
Proof.
  rewrite <- lookup_lt_is_Some. destruct (l !! i); simpl.
  - split; [by eexists | done].
  - split; [done | by intros [? ?]].
Qed.

(** X2. [GI], its typed overload and [GO] never touch the shared state and
    need no graph; each returns exactly for an index in range.  The names
    they return tell forward arguments apart: the gradient names of two
    forward arguments, inputs or outputs, are equal exactly when the forward
    names are, and the typed overload returns the name [GI] returns with the
    type it was given. *)
Theorem gradient_accessor_names (b : GradientBuilderBase) (i j : nat)
    (type : option TypeProto) (s : Shared) :
  ((GI b i s).2 = s /\ (GI_type b i type s).2 = s /\ (GO b i s).2 = s)
  /\ (is_Ok (GI b i s).1 = true <-> (i < length (InputDefs (node_ b)))%nat)
  /\ (is_Ok (GO b i s).1 = true <-> (i < length (OutputDefs (node_ b)))%nat)
  /\ result_name (GI_type b i type s).1 = result_name (GI b i s).1
  /\ (forall a, (GI_type b i type s).1 = Ok a -> type_proto a = type)
  /\ (forall ai aj,
        InputDefs (node_ b) !! i = Some ai ->
        InputDefs (node_ b) !! j = Some aj ->
        (result_name (GI b i s).1 = result_name (GI b j s).1
         <-> NodeArg_Name ai = NodeArg_Name aj))
  /\ (forall ai ao,
        InputDefs (node_ b) !! i = Some ai ->
        OutputDefs (node_ b) !! j = Some ao ->
        (result_name (GI b i s).1 = result_name (GO b j s).1
         <-> NodeArg_Name ai = NodeArg_Name ao)).
Proof.
  rewrite !GI_run, !GO_run, !GI_type_run. simpl.
  split; [done|]. split; [apply lookup_is_Ok|]. split; [apply lookup_is_Ok|].
  split; [by destruct (InputDefs (node_ b) !! i)|].
  split; [destruct (InputDefs (node_ b) !! i); intros a Ha; by simplify_eq|].
  split.
  - intros ai aj -> ->. simpl. split.
    + intros Heq. injection Heq as Heq. by apply string_app_inj_r in Heq.
    + by intros ->.
  - intros ai ao -> ->. simpl. split.
    + intros Heq. injection Heq as Heq. by apply string_app_inj_r in Heq.
    + by intros ->.
Qed.

Lemma gradient_accessor_names_witness :
  (result_name (GI example_builder 0 example_shared).1
   = result_name (GI example_builder 1 example_shared).1
   <-> "X" = "Y")
  /\ result_name (GI example_builder_no_graph 0 example_shared).1
     = Some "X_grad".
Proof.
  destruct (gradient_accessor_names example_builder 0 1 None example_shared)
    as (_ & _ & _ & _ & _ & Hnames & _).
  split; [exact (Hnames _ _ eq_refl eq_refl) | reflexivity].
Defined.

(** ** Intermediate names and the unique prefix *)

(** X3. [Name], and with it [IA], is injective in the suffix and puts the
    builder's prefix first; two builders can give the same intermediate name
    only if the prefix of one begins with the prefix of the other. *)
Theorem intermediate_names_scoped (b1 b2 : GradientBuilderBase)
    (s1 s2 : string) (type : option TypeProto) :
  (Name b1 s1 = Name b1 s2 <-> s1 = s2)
  /\ name (IA b1 s1 type) = unique_node_prefix_ b1 +:+ s1
  /\ type_proto (IA b1 s1 type) = type
  /\ (name (IA b1 s1 type) = name (IA b2 s2 type) ->
      (exists r, unique_node_prefix_ b2 = unique_node_prefix_ b1 +:+ r)
      \/ (exists r, unique_node_prefix_ b1 = unique_node_prefix_ b2 +:+ r)).
Proof.
  unfold IA, Name. simpl. repeat split.
  - apply (inj _).
  - by intros ->.
  - apply app_eq_prefix.
Qed.

Lemma intermediate_names_scoped_witness :
  GradientBuilderBase_ctor None (Some example_node_nested) ∅ ∅
    = Ok example_builder_nested
  /\ name (IA example_builder "inner_Grad/dX" None)
     = name (IA example_builder_nested "dX" None)
  /\ ((exists r, unique_node_prefix_ example_builder_nested
                 = unique_node_prefix_ example_builder +:+ r)
      \/ (exists r, unique_node_prefix_ example_builder
                    = unique_node_prefix_ example_builder_nested +:+ r)).
Proof.
  split; [reflexivity|]. split; [reflexivity|].
  destruct (intermediate_names_scoped example_builder example_builder_nested
              "inner_Grad/dX" "dX" None) as (_ & _ & _ & Hpre).
  exact (Hpre eq_refl).
Defined.

Lemma ctor_named_prefix graph (n : Node) gi go b :
  Node_Name n <> "" ->
  GradientBuilderBase_ctor graph (Some n) gi go = Ok b ->
  unique_node_prefix_ b = Node_Name n +:+ "_Grad/".
Proof.
  intros Hn. unfold GradientBuilderBase_ctor, CreateUniqueNodePrefix.
  rewrite bool_decide_eq_true_2 by done. simpl. by intros [= <-].
Qed.

(** X4. Builders constructed for two forward nodes with different names,
    neither empty nor containing a slash, never give the same name to an
    intermediate argument or to a node they name. *)
Theorem constructed_prefixes_do_not_collide
    (graph1 graph2 : option Graph) (n1 n2 : Node)
    (gi1 go1 gi2 go2 : gset string) (b1 b2 : GradientBuilderBase)
    (s1 s2 : string) :
  GradientBuilderBase_ctor graph1 (Some n1) gi1 go1 = Ok b1 ->
  GradientBuilderBase_ctor graph2 (Some n2) gi2 go2 = Ok b2 ->
  Node_Name n1 <> "" -> Node_Name n2 <> "" ->
  has_char "/" (Node_Name n1) = false ->
  has_char "/" (Node_Name n2) = false ->
  Node_Name n1 <> Node_Name n2 ->
  Name b1 s1 <> Name b2 s2.
Proof.
  intros Hb1 Hb2 Hne1 Hne2 Hs1 Hs2 Hdiff Heq. apply Hdiff.
  apply ctor_named_prefix in Hb1; [|done].
  apply ctor_named_prefix in Hb2; [|done].
  unfold Name in Heq. rewrite Hb1, Hb2 in Heq.
  change "_Grad/" with ("_Grad" +:+ String "/" "") in Heq.
  rewrite <- !(string_app_assoc _ "_Grad") in Heq.
  rewrite !(string_app_assoc _ (String "/" "")) in Heq.
  rewrite !string_app_cons in Heq. simpl in Heq.
  apply app_first_separator_inj in Heq as [Heq _].
  - by apply string_app_inj_r in Heq.
  - rewrite has_char_app, Hs1. done.
  - rewrite has_char_app, Hs2. done.
Qed.

Lemma constructed_prefixes_do_not_collide_witness :
  GradientBuilderBase_ctor None (Some example_node_3) ∅ ∅
    = Ok example_builder_3
  /\ Name example_builder "dX" <> Name example_builder_3 "dX".
Proof.
  split; [reflexivity|].
  refine (constructed_prefixes_do_not_collide
            (Some example_graph) None example_node example_node_3
            {[ "Z" ]} {[ "X" ]} ∅ ∅ example_builder example_builder_3
            "dX" "dX" eq_refl eq_refl _ _ eq_refl eq_refl _);
    discriminate.
Defined.

(** ** The constructor *)

(** X5. The constructor throws exactly on a null node, whatever the graph;
    it dereferences a null graph exactly for a node without a name; in every
    other case it returns a builder that holds the node, the graph pointer
    and the two sets as given, with a prefix ending in "_Grad/" that starts
    with the node's name, or for a nameless node with the name the graph
    generates from its op type. *)
Theorem constructor_outcomes (graph : option Graph) (node : option Node)
    (gradient_inputs gradient_outputs : gset string) :
  match GradientBuilderBase_ctor graph node gradient_inputs gradient_outputs
  with
  | Ok b =>
      exists n, node = Some n
        /\ node_ b = n /\ graph_ b = graph
        /\ gradient_inputs_ b = gradient_inputs
        /\ gradient_outputs_ b = gradient_outputs
        /\ (if bool_decide (Node_Name n = "")
            then exists g, graph = Some g
                   /\ unique_node_prefix_ b
                      = GenerateNodeName g (OpType n) +:+ "_Grad/"
            else unique_node_prefix_ b = Node_Name n +:+ "_Grad/")
  | Fatal _ => node = None
  | NullDeref => exists n, node = Some n /\ Node_Name n = "" /\ graph = None
  end.
Proof.
  unfold GradientBuilderBase_ctor, CreateUniqueNodePrefix.
  destruct node as [n|]; [|done].
  destruct (decide (Node_Name n = "")) as [Hn|Hn].
  - rewrite bool_decide_eq_false_2 by (by intros []).
    destruct graph as [g|]; simpl.
    + exists n. rewrite bool_decide_eq_true_2 by done.
      repeat split. by exists g.
    + by exists n.
  - rewrite bool_decide_eq_true_2 by done. simpl.
    exists n. rewrite bool_decide_eq_false_2 by done. done.
Qed.

(** ** Recording and querying stashed tensors *)

Lemma Shared_eq (s1 s2 : Shared) :
  stashed_tensors s1 = stashed_tensors s2 ->
  python_op_input_require_grad_info s1
    = python_op_input_require_grad_info s2 ->
  log s1 = log s2 -> s1 = s2.
Proof. destruct s1, s2. simpl. by intros -> -> ->. Qed.

(** X6. After [RecordStashedTensor n], [IsTensorStashed n] answers true and
    the answer for every other name is what it was; recording a name twice
    is recording it once, recording a name that is already stashed changes
    nothing, two recordings commute, and [IsTensorStashed] itself changes
    nothing. *)
Theorem record_then_query (n m : string) (s : Shared) :
  (IsTensorStashed n (RecordStashedTensor n s).2).1 = Ok true
  /\ (n <> m ->
      (IsTensorStashed m (RecordStashedTensor n s).2).1
      = (IsTensorStashed m s).1)
  /\ (RecordStashedTensor n (RecordStashedTensor n s).2).2
     = (RecordStashedTensor n s).2
  /\ ((IsTensorStashed n s).1 = Ok true -> (RecordStashedTensor n s).2 = s)
  /\ (RecordStashedTensor n (RecordStashedTensor m s).2).2
     = (RecordStashedTensor m (RecordStashedTensor n s).2).2
  /\ (IsTensorStashed m s).2 = s.
Proof.
  unfold IsTensorStashed, RecordStashedTensor. simpl.
  split; [|split; [|split; [|split; [|split]]]].
  - f_equal. apply bool_decide_eq_true_2.
    apply elem_of_union_l. by apply elem_of_singleton.
  - intros Hne. f_equal. apply bool_decide_ext.
    rewrite elem_of_union, elem_of_singleton. naive_solver.
  - apply Shared_eq; simpl; try done.
    by rewrite (assoc_L (∪)), (idemp_L (∪)).
  - intros Hin. injection Hin as Hin. apply bool_decide_eq_true in Hin.
    apply Shared_eq; simpl; try done.
    apply subseteq_union_1_L. by apply singleton_subseteq_l.
  - apply Shared_eq; simpl; try done.
    by rewrite !(assoc_L (∪)), (comm_L (∪) {[n]} {[m]}).
  - done.
Qed.

Lemma record_then_query_witness :
  (IsTensorStashed "Y" (RecordStashedTensor "X" example_shared).2).1
    = (IsTensorStashed "Y" example_shared).1
  /\ (RecordStashedTensor "X" (RecordStashedTensor "X" example_shared).2).2
     = (RecordStashedTensor "X" example_shared).2.
Proof.
  destruct (record_then_query "X" "Y" example_shared)
    as (_ & Hother & _ & _ & _ & _).
  destruct (record_then_query "X" "X"
              (RecordStashedTensor "X" example_shared).2)
    as (Hin & _ & _ & Hsame & _ & _).
  split; [apply Hother; discriminate | exact (Hsame Hin)].
Defined.

Lemma forward_arg_then_query rn b g defs msg (i : nat) (arg : NodeArg)
    (m : string) (s : Shared) :
  graph_ b = Some g -> defs !! i = Some arg ->
  (IsTensorStashed (NodeArg_Name arg)
     (forward_arg rn b defs msg i true s).2).1
  = match GetNodeArg g (rn (NodeArg_Name arg)) with
    | Some _ => (IsTensorStashed (NodeArg_Name arg) s).1
    | None => Ok true
    end
  /\ (m <> NodeArg_Name arg ->
      (IsTensorStashed m (forward_arg rn b defs msg i true s).2).1
      = (IsTensorStashed m s).1)
  /\ (IsTensorStashed m (forward_arg rn b defs msg i false s).2).1
     = (IsTensorStashed m s).1.
Proof.
  intros Hg Harg.
  destruct (GetNodeArg g (rn (NodeArg_Name arg))) as [alias|] eqn:Halias.
  - destruct (GetProducerNode g (NodeArg_Name arg)) as [p|] eqn:Hp.
    + rewrite !(forward_arg_alias _ _ g _ _ _ _ arg alias p) by done. done.
    + rewrite !(forward_arg_alias_no_producer _ _ g _ _ _ _ arg alias)
        by done.
      done.
  - rewrite !(forward_arg_original _ _ g _ _ _ _ arg) by done.
    unfold IsTensorStashed. simpl. repeat split.
    + f_equal. apply bool_decide_eq_true_2.
      apply elem_of_union_l. by apply elem_of_singleton.
    + intros Hne. f_equal. apply bool_decide_ext.
      rewrite elem_of_union, elem_of_singleton. naive_solver.
Qed.

(** X7. After [I] or [O] has returned for a forward argument with stashing
    on, [IsTensorStashed] answers true for the argument's name when the graph
    holds no recomputed alias of it, and answers what it answered before when
    the graph holds one; for every other name, and for every name when
    stashing is off, the answer is what it was. *)
Theorem stashed_after_access (RecomputeName : string -> string)
    (b : GradientBuilderBase) (g : Graph) (i : nat) (m : string)
    (s : Shared) :
  graph_ b = Some g ->
  (forall arg, InputDefs (node_ b) !! i = Some arg ->
     (IsTensorStashed (NodeArg_Name arg)
        (I RecomputeName b i true s).2).1
     = match GetNodeArg g (RecomputeName (NodeArg_Name arg)) with
       | Some _ => (IsTensorStashed (NodeArg_Name arg) s).1
       | None => Ok true
       end
     /\ (m <> NodeArg_Name arg ->
         (IsTensorStashed m (I RecomputeName b i true s).2).1
         = (IsTensorStashed m s).1)
     /\ (IsTensorStashed m (I RecomputeName b i false s).2).1
        = (IsTensorStashed m s).1)
  /\ (forall arg, OutputDefs (node_ b) !! i = Some arg ->
     (IsTensorStashed (NodeArg_Name arg)
        (O RecomputeName b i true s).2).1
     = match GetNodeArg g (RecomputeName (NodeArg_Name arg)) with
       | Some _ => (IsTensorStashed (NodeArg_Name arg) s).1
       | None => Ok true
       end
     /\ (m <> NodeArg_Name arg ->
         (IsTensorStashed m (O RecomputeName b i true s).2).1
         = (IsTensorStashed m s).1)
     /\ (IsTensorStashed m (O RecomputeName b i false s).2).1
        = (IsTensorStashed m s).1).
Proof.
  intros Hg. unfold I, O.
  split; intros arg Harg; by apply forward_arg_then_query.
Qed.

Lemma stashed_after_access_witness :
  (IsTensorStashed "Y"
     (I example_RecomputeName example_builder 1 true example_shared).2).1
    = Ok true
  /\ (IsTensorStashed "X"
       (I example_RecomputeName example_builder 0 true example_shared).2).1
     = Ok false
  /\ (IsTensorStashed "X"
       (O example_RecomputeName example_builder 0 true example_shared).2).1
     = Ok false.
Proof.
  destruct (stashed_after_access example_RecomputeName example_builder
              example_graph 1 "X" example_shared eq_refl) as [HI1 _].
  destruct (stashed_after_access example_RecomputeName example_builder
              example_graph 0 "X" example_shared eq_refl) as [HI0 HO0].
  destruct (HI1 _ eq_refl) as (HY & _ & _).
  destruct (HI0 _ eq_refl) as (HX & _ & _).
  destruct (HO0 _ eq_refl) as (_ & HZ & _).
  split; [exact HY|]. split; [exact HX|].
  apply HZ. discriminate.
Defined.

(** ** When the forward accessors return *)




(** ** What the protected calls leave alone *)

Lemma forward_arg_frame rn b defs msg (i : nat) (rs : bool) (s : Shared) :
  python_op_input_require_grad_info (forward_arg rn b defs msg i rs s).2
    = python_op_input_require_grad_info s
  /\ exists l, log (forward_arg rn b defs msg i rs s).2 = log s ++ l
               /\ (length l <= 1)%nat.
Proof.
  assert (forall l0 : list string,
            exists l, l0 = l0 ++ l /\ (length l <= 1)%nat) as Hnil.
  { intros l0. exists []. rewrite app_nil_r. split; [done | simpl; lia]. }
  destruct (defs !! i) as [arg|] eqn:Harg.
  - destruct (graph_ b) as [g|] eqn:Hg.
    + destruct (GetNodeArg g (rn (NodeArg_Name arg))) as [alias|] eqn:Ha.
      * destruct (GetProducerNode g (NodeArg_Name arg)) as [p|] eqn:Hp.
        -- rewrite (forward_arg_alias _ _ g _ _ _ _ arg alias p) by done.
           simpl. split; [done|]. eexists. split; [done | simpl; lia].
        -- rewrite (forward_arg_alias_no_producer _ _ g _ _ _ _ arg alias)
             by done.
           simpl. split; [done | apply Hnil].
      * rewrite (forward_arg_original _ _ g _ _ _ _ arg) by done.
        destruct rs; simpl; (split; [done | apply Hnil]).
    + rewrite (forward_arg_null_graph _ _ _ _ _ _ arg) by done.
      simpl. split; [done | apply Hnil].
  - rewrite forward_arg_out_of_range by done.
    simpl. split; [done | apply Hnil].
Qed.

Lemma read_only_call rn b {X} (c : BaseCall X) (s : Shared) :
  writes_shared c = false -> (call rn b c s).2 = s.
Proof.
  destruct c; simpl; try done; intros _;
    unfold IElemType, OElemType;
    unfold IsTensorStashed, GI, GI_type, GO, IType, OType,
      GetSrcNodeInputSize, GetSrcNodeOutputSize, ORT_ENFORCE, lift, deref,
      throw, mbind, M_bind, mret, M_ret; simpl;
    repeat (case_match; simpl in *; simplify_eq; try done).
Qed.

Lemma call_frame rn b {X} (c : BaseCall X) (s : Shared) :
  python_op_input_require_grad_info (call rn b c s).2
    = python_op_input_require_grad_info s
  /\ exists l, log (call rn b c s).2 = log s ++ l.
Proof.
  destruct (writes_shared c) eqn:Hw.
  - destruct c; simpl in Hw; try done; simpl.
    + split; [done|]. exists []. by rewrite app_nil_r.
    + destruct (forward_arg_frame rn b (InputDefs (node_ b))
                  "i < node_->InputDefs().size()" i record_stashing s)
        as (Hp & l & Hl & _).
      split; [exact Hp | by exists l].
    + destruct (forward_arg_frame rn b (OutputDefs (node_ b))
                  "i < node_->OutputDefs().size()" i record_stashing s)
        as (Hp & l & Hl & _).
      split; [exact Hp | by exists l].
  - rewrite read_only_call by done. split; [done|].
    exists []. by rewrite app_nil_r.
Qed.

Lemma run_body_frame rn b {A} (p : Body A) (s : Shared) :
  python_op_input_require_grad_info (run_body rn b p s).2
    = python_op_input_require_grad_info s
  /\ exists l, log (run_body rn b p s).2 = log s ++ l.
Proof.
  revert s. induction p as [a|msg|X c k IH]; intros s; simpl.
  - split; [done|]. exists []. by rewrite app_nil_r.
  - split; [done|]. exists []. by rewrite app_nil_r.
  - unfold mbind, M_bind.
    destruct (call_frame rn b c s) as (Hp & l & Hl).
    destruct (call rn b c s) as [[x|msg|] s1]; simpl in *;
      try (split; [done | by exists l]).
    destruct (IH x s1) as (Hp' & l' & Hl').
    split; [by rewrite Hp'|].
    exists (l ++ l'). by rewrite Hl', Hl, app_assoc.
Qed.

(** X9. Of the protected member functions the header defines, only
    [RecordStashedTensor], [I] and [O] change anything behind the builder's
    references: every other one returns with the shared state as it was.  No
    call, and no body made of calls, changes the Python-op gradient
    requirements, and messages are only ever appended to the log, at most
    one per call. *)
Theorem protected_calls_frame (RecomputeName : string -> string)
    (b : GradientBuilderBase) (s : Shared) :
  (forall (X : Type) (c : BaseCall X),
     writes_shared c = false -> (call RecomputeName b c s).2 = s)
  /\ (forall (X : Type) (c : BaseCall X),
       python_op_input_require_grad_info (call RecomputeName b c s).2
         = python_op_input_require_grad_info s)
  /\ (forall (i : nat) (rs : bool),
       exists l, log (I RecomputeName b i rs s).2 = log s ++ l
                 /\ (length l <= 1)%nat)
  /\ (forall (A : Type) (p : Body A),
       python_op_input_require_grad_info (run_body RecomputeName b p s).2
         = python_op_input_require_grad_info s
       /\ exists l, log (run_body RecomputeName b p s).2 = log s ++ l).
Proof.
  split; [|split; [|split]].
  - intros X c. apply read_only_call.
  - intros X c. apply call_frame.
  - intros i rs. unfold I. apply forward_arg_frame.
  - intros A p. apply run_body_frame.
Qed.

Lemma protected_calls_frame_witness :
  (call example_RecomputeName example_builder (Call_IElemType 1)
     example_shared).2 = example_shared.
Proof.
  destruct (protected_calls_frame example_RecomputeName example_builder
              example_shared) as (Hread & _).
  exact (Hread _ (Call_IElemType 1) eq_refl).
Defined.

(** ** Types and sizes of the forward node *)

Lemma IType_run b (i : nat) (s : Shared) :
  IType b i s =
  (match InputDefs (node_ b) !! i with
   | Some arg => Ok (TypeAsProto arg)
   | None => Fatal "i < node_->InputDefs().size()"
   end, s).
Proof. unfold IType. by destruct (InputDefs (node_ b) !! i). Qed.

Lemma OType_run b (i : nat) (s : Shared) :
  OType b i s =
  (match OutputDefs (node_ b) !! i with
   | Some arg => Ok (TypeAsProto arg)
   | None => Fatal "i < node_->OutputDefs().size()"
   end, s).
Proof. unfold OType. by destruct (OutputDefs (node_ b) !! i). Qed.

Lemma IElemType_run b (i : nat) (s : Shared) :
  IElemType b i s =
  (match InputDefs (node_ b) !! i with
   | Some arg => match TypeAsProto arg with
                 | Some ty => Ok (elem_type ty)
                 | None => NullDeref
                 end
   | None => Fatal "i < node_->InputDefs().size()"
   end, s).
Proof.
  unfold IElemType, mbind, M_bind. rewrite IType_run.
  destruct (InputDefs (node_ b) !! i) as [arg|]; [|done].
  by destruct (TypeAsProto arg).
Qed.

Lemma OElemType_run b (i : nat) (s : Shared) :
  OElemType b i s =
  (match OutputDefs (node_ b) !! i with
   | Some arg => match TypeAsProto arg with
                 | Some ty => Ok (elem_type ty)
                 | None => NullDeref
                 end
   | None => Fatal "i < node_->OutputDefs().size()"
   end, s).
Proof.
  unfold OElemType, mbind, M_bind. rewrite OType_run.
  destruct (OutputDefs (node_ b) !! i) as [arg|]; [|done].
  by destruct (TypeAsProto arg).
Qed.

(** X10. [IElemType] returns exactly when [IType] returns a type that is
    not null, and then returns that type's element type; when [IType]
    returns a null type it dereferences null, and when [IType] throws, out
    of range, it throws the same.  The type [IType] returns is the type of
    the argument [GI] returns.  [OElemType], [OType] and [GO] likewise. *)
Theorem element_type_of_forward_argument (b : GradientBuilderBase) (i : nat)
    (s : Shared) :
  (match (IType b i s).1 with
   | Ok (Some ty) => (IElemType b i s).1 = Ok (elem_type ty)
   | Ok None => (IElemType b i s).1 = NullDeref
   | r => (IElemType b i s).1 = Fatal "i < node_->InputDefs().size()"
          /\ r = Fatal "i < node_->InputDefs().size()"
          /\ (length (InputDefs (node_ b)) <= i)%nat
   end
   /\ (forall a, (GI b i s).1 = Ok a -> (IType b i s).1 = Ok (type_proto a)))
  /\
  (match (OType b i s).1 with
   | Ok (Some ty) => (OElemType b i s).1 = Ok (elem_type ty)
   | Ok None => (OElemType b i s).1 = NullDeref
   | r => (OElemType b i s).1 = Fatal "i < node_->OutputDefs().size()"
          /\ r = Fatal "i < node_->OutputDefs().size()"
          /\ (length (OutputDefs (node_ b)) <= i)%nat
   end
   /\ (forall a, (GO b i s).1 = Ok a -> (OType b i s).1 = Ok (type_proto a))).
Proof.
  rewrite IType_run, OType_run, IElemType_run, OElemType_run, GI_run, GO_run.
  simpl. split; split.
  - destruct (InputDefs (node_ b) !! i) as [arg|] eqn:Harg.
    + by destruct (TypeAsProto arg).
    + repeat split. by apply lookup_ge_None_1.
  - destruct (InputDefs (node_ b) !! i); intros a Ha; by simplify_eq.
  - destruct (OutputDefs (node_ b) !! i) as [arg|] eqn:Harg.
    + by destruct (TypeAsProto arg).
    + repeat split. by apply lookup_ge_None_1.
  - destruct (OutputDefs (node_ b) !! i); intros a Ha; by simplify_eq.
Qed.

Lemma element_type_of_forward_argument_witness :
  (IElemType example_builder 0 example_shared).1
    = Ok TensorProto_DataType_FLOAT
  /\ (IElemType example_builder 1 example_shared).1 = NullDeref
  /\ (IType example_builder 1 example_shared).1 = Ok None.
Proof.
  destruct (element_type_of_forward_argument example_builder 0
              example_shared) as [[H0 _] _].
  destruct (element_type_of_forward_argument example_builder 1
              example_shared) as [[H1 HGI] _].
  split; [exact H0|]. split; [exact H1|].
  exact (HGI (mkArgDef "Y_grad" None) eq_refl).
Defined.

Lemma int_of_size_t_cases (n : nat) :
  - 2 ^ 31 <= int_of_size_t n < 2 ^ 31
  /\ (Z.of_nat n < 2 ^ 31 -> int_of_size_t n = Z.of_nat n)
  /\ (2 ^ 31 <= Z.of_nat n < 2 ^ 32 ->
      int_of_size_t n = Z.of_nat n - 2 ^ 32).
Proof.
  unfold int_of_size_t.
  pose proof (Z.mod_pos_bound (Z.of_nat n) (2 ^ 32) eq_refl) as Hmod.
  split; [|split].
  - destruct (Z.ltb_spec (Z.of_nat n mod 2 ^ 32) (2 ^ 31)); lia.
  - intros Hsmall. rewrite Z.mod_small by lia.
    destruct (Z.ltb_spec (Z.of_nat n) (2 ^ 31)); lia.
  - intros Hbig. rewrite Z.mod_small by lia.
    destruct (Z.ltb_spec (Z.of_nat n) (2 ^ 31)); lia.
Qed.

(** X11. [GetSrcNodeInputSize] never throws and leaves the shared state as
    it was; it returns the number of forward inputs cast to [int], a number
    from -2^31 up to 2^31 - 1.  For a node with fewer than 2^31 inputs that
    number is the count itself and bounds the indices of the forward inputs:
    [GI] and [IType] return exactly below it, and
    [IsGradientRequiredForSrcNodeInput] is true only below it.  From 2^31 to
    2^32 - 1 inputs the number returned is negative.
    [GetSrcNodeOutputSize] does the same for the outputs. *)
Theorem source_node_sizes (b : GradientBuilderBase) (i : nat) (s : Shared) :
  (exists n : Z,
     GetSrcNodeInputSize b s = (Ok n, s)
     /\ - 2 ^ 31 <= n < 2 ^ 31
     /\ (Z.of_nat (length (InputDefs (node_ b))) < 2 ^ 31 ->
         n = Z.of_nat (length (InputDefs (node_ b)))
         /\ (is_Ok (GI b i s).1 = true <-> Z.of_nat i < n)
         /\ (is_Ok (IType b i s).1 = true <-> Z.of_nat i < n)
         /\ (IsGradientRequiredForSrcNodeInput b i = Ok true
             -> Z.of_nat i < n))
     /\ (2 ^ 31 <= Z.of_nat (length (InputDefs (node_ b))) < 2 ^ 32 ->
         n = Z.of_nat (length (InputDefs (node_ b))) - 2 ^ 32 /\ n < 0))
  /\
  (exists n : Z,
     GetSrcNodeOutputSize b s = (Ok n, s)
     /\ - 2 ^ 31 <= n < 2 ^ 31
     /\ (Z.of_nat (length (OutputDefs (node_ b))) < 2 ^ 31 ->
         n = Z.of_nat (length (OutputDefs (node_ b)))
         /\ (is_Ok (GO b i s).1 = true <-> Z.of_nat i < n)
         /\ (is_Ok (OType b i s).1 = true <-> Z.of_nat i < n)
         /\ (IsGradientAvailableForSrcNodeOutput b i = Ok true
             -> Z.of_nat i < n))
     /\ (2 ^ 31 <= Z.of_nat (length (OutputDefs (node_ b))) < 2 ^ 32 ->
         n = Z.of_nat (length (OutputDefs (node_ b))) - 2 ^ 32 /\ n < 0)).
Proof.
  split; eexists; (split; [reflexivity|]).
  - destruct (int_of_size_t_cases (length (InputDefs (node_ b))))
      as (Hrange & Hsmall & Hbig).
    split; [exact Hrange|]. split.
    + intros Hlt. rewrite (Hsmall Hlt). split; [done|].
      rewrite GI_run, IType_run. simpl. rewrite !lookup_is_Ok.
      split; [lia|]. split; [lia|].
      unfold IsGradientRequiredForSrcNodeInput.
      case_bool_decide; [lia|done].
    + intros Hwrap. rewrite (Hbig Hwrap). split; [done | lia].
  - destruct (int_of_size_t_cases (length (OutputDefs (node_ b))))
      as (Hrange & Hsmall & Hbig).
    split; [exact Hrange|]. split.
    + intros Hlt. rewrite (Hsmall Hlt). split; [done|].
      rewrite GO_run, OType_run. simpl. rewrite !lookup_is_Ok.
      split; [lia|]. split; [lia|].
      unfold IsGradientAvailableForSrcNodeOutput.
      case_bool_decide; [lia|done].
    + intros Hwrap. rewrite (Hbig Hwrap). split; [done | lia].
Qed.

Lemma source_node_sizes_witness :
  exists n : Z,
    GetSrcNodeInputSize example_builder example_shared
      = (Ok n, example_shared)
    /\ n = 2
    /\ (is_Ok (GI example_builder 1 example_shared).1 = true
        <-> Z.of_nat 1 < n).
Proof.
  destruct (source_node_sizes example_builder 1 example_shared)
    as [(n & Hrun & _ & Hsmall & _) _].
  exists n. split; [exact Hrun|].
  destruct Hsmall as (Hn & HGI & _ & _).
  - simpl. lia.
  - split; [exact Hn | exact HGI].
Defined.

(** ** The two element-type dispatches *)

Lemma ScalarTensorProtoByElemType_first_match (flag : bool) (value : float32)
    (t : Z) :
  ScalarTensorProtoByElemType flag value t =
  Ok {| data_type := data_type_of (first_match (dispatch_table flag) t value);
        dims := [1];
        data := [first_match (dispatch_table flag) t value] |}.
Proof.
  unfold ScalarTensorProtoByElemType, dispatch_table.
  destruct flag; simpl; repeat case_match; reflexivity.
Qed.

Lemma data_type_of_first_match_hit table (t : Z) (v : float32) :
  Forall (fun row => data_type_of (row.2 v) = row.1) table ->
  t ∈ table.*1 -> data_type_of (first_match table t v) = t.
Proof.
  induction 1 as [|[tag enc] table Hrow _ IH]; simpl; intros Hin.
  - by apply elem_of_nil in Hin.
  - destruct (Z.eqb_spec t tag) as [->|Hne]; [exact Hrow|].
    apply IH. apply elem_of_cons in Hin as [?|?]; done.
Qed.

Lemma dispatch_table_tags (flag : bool) (v : float32) :
  Forall (fun row => data_type_of (row.2 v) = row.1) (dispatch_table flag).
Proof. destruct flag; repeat constructor. Qed.

(** X12. [ScalarTensorProtoByElemType] and the element-type overload of
    [ConstantScalarNode] make the same choice: for every value and tag the
    node's only attribute, "value", holds exactly the tensor
    [ScalarTensorProtoByElemType] returns, a tensor of one element and
    dimensions [1]. *)
Theorem constant_node_holds_typed_tensor (flag : bool) (value : float32)
    (arg_name : string) (t : Z) :
  exists tp : TensorProto,
    ScalarTensorProtoByElemType flag value t = Ok tp
    /\ ConstantScalarNode flag value arg_name t
       = Ok (NodeDef_ctor "Constant" [] [mkArgDef arg_name None]
               [MakeAttribute "value" tp])
    /\ dims tp = [1]
    /\ exists x : Scalar, data tp = [x] /\ scalar_value x = value.
Proof.
  rewrite ScalarTensorProtoByElemType_first_match,
    ConstantScalarNode_first_match.
  eexists. split; [reflexivity|]. split; [reflexivity|].
  split; [reflexivity|]. eexists. split; [reflexivity|].
  apply first_match_dispatch_value.
Qed.

(** X13. The tensor [ScalarTensorProtoByElemType] returns carries the tag it
    was asked for exactly when that tag is FLOAT or one of the tags the
    dispatch tests; for every other tag, the 8-bit ones included when they
    are compiled out, the tensor is tagged FLOAT. *)
Theorem tensor_tag_against_request (flag : bool) (value : float32) (t : Z) :
  exists tp : TensorProto,
    ScalarTensorProtoByElemType flag value t = Ok tp
    /\ (data_type tp = t
        <-> t = TensorProto_DataType_FLOAT \/ t ∈ (dispatch_table flag).*1)
    /\ (t ∉ (dispatch_table flag).*1 ->
        data_type tp = TensorProto_DataType_FLOAT).
Proof.
  rewrite ScalarTensorProtoByElemType_first_match. eexists.
  split; [reflexivity|]. cbn [data_type].
  destruct (decide (t ∈ (dispatch_table flag).*1)) as [Hin|Hnot].
  - rewrite data_type_of_first_match_hit
      by (done || apply dispatch_table_tags).
    split; [|done]. split; [by right | done].
  - rewrite first_match_miss by done. simpl.
    split; [|done]. split; [by left | by intros [?|?]].
Qed.

Lemma tensor_tag_against_request_witness :
  exists tp : TensorProto,
    ScalarTensorProtoByElemType true float_1_0 17 = Ok tp
    /\ data_type tp = TensorProto_DataType_FLOAT.
Proof.
  destruct (tensor_tag_against_request true float_1_0 17)
    as (tp & Hrun & _ & Hdefault).
  exists tp. split; [exact Hrun|]. apply Hdefault.
  apply (bool_decide_unpack _). vm_compute. reflexivity.
Defined.

(** ** What name finalization keeps *)

Lemma finalize_name_same_but_name b (i : nat) (nd : NodeDef) :
  same_but_name nd (finalize_name b i nd).
Proof. unfold finalize_name, same_but_name. by case_bool_decide. Qed.

Lemma finalize_name_idemp b (i : nat) (nd : NodeDef) :
  finalize_name b i (finalize_name b i nd) = finalize_name b i nd.
Proof.
  pose proof (finalize_name_nonempty b i nd) as Hne.
  unfold finalize_name at 1. by rewrite bool_decide_eq_false_2.
Qed.

Lemma finalize_names_idemp b (l : list NodeDef) :
  finalize_names b 0 (finalize_names b 0 l) = finalize_names b 0 l.
Proof.
  apply list_eq. intros i. rewrite !finalize_names_lookup.
  destruct (l !! i) as [nd|]; simpl; [|done].
  by rewrite finalize_name_idemp.
Qed.

(** X14. [GetGradientDefs] ends in the state [GetGradientDefsImpl] ended
    in, and fails exactly as the implementation fails.  When it returns, the
    list has the nodes of the implementation in their order, each with its
    op type, inputs, outputs and attributes untouched, and finalizing the
    names of the returned list again would change nothing. *)
Theorem GetGradientDefs_only_renames {T : Type} `{GradientBuilder T} (t : T)
    (s : Shared) :
  (GetGradientDefs t s).2 = (GetGradientDefsImpl t s).2
  /\ match (GetGradientDefsImpl t s).1 with
     | Ok impl_defs =>
         exists defs, (GetGradientDefs t s).1 = Ok defs
           /\ Forall2 same_but_name impl_defs defs
           /\ finalize_names (base t) 0 defs = defs
     | Fatal msg => (GetGradientDefs t s).1 = Fatal msg
     | NullDeref => (GetGradientDefs t s).1 = NullDeref
     end.
Proof.
  unfold GetGradientDefs, GetGradientDefs_over, mbind, M_bind.
  destruct (GetGradientDefsImpl t s) as [[impl_defs|msg|] s']; simpl;
    (split; [done|]); try done.
  eexists. split; [done|]. split.
  - apply Forall2_same_length_lookup. split.
    + rewrite finalize_names_imap. by rewrite length_imap.
    + intros i a d Ha. rewrite finalize_names_lookup, Ha. simpl.
      intros [= <-]. apply finalize_name_same_but_name.
  - apply finalize_names_idemp.
Qed.

(** X15. A node built by the element-type overload of [ConstantScalarNode]
    is a "Constant" without inputs, with the one output it was asked to
    name, of null type, and without a name of its own; wherever it stands in
    the list a builder returns, [GetGradientDefs] names it by the builder's
    prefix, "Constant_" and its position. *)
Theorem constant_node_named_by_position (flag : bool) (value : float32)
    (arg_name : string) (t : Z) (b : GradientBuilderBase)
    (before after : list NodeDef) :
  exists nd : NodeDef,
    ConstantScalarNode flag value arg_name t = Ok nd
    /\ op_type nd = "Constant" /\ input_args nd = []
    /\ output_args nd = [mkArgDef arg_name None] /\ node_name nd = ""
    /\ finalize_names b 0 (before ++ nd :: after) !! length before
       = Some (set_name nd (unique_node_prefix_ b +:+ "Constant_"
                            +:+ pretty (length before))).
Proof.
  rewrite ConstantScalarNode_first_match. eexists.
  split; [reflexivity|]. repeat split.
  rewrite finalize_names_lookup, list_lookup_middle by done. done.
Qed.

(** ** The shaped overload of [ConstantScalarNode] *)

(** X16. The overload of [ConstantScalarNode] that takes a shape returns
    exactly for the shapes [ScalarTensorProto] accepts, the empty one and
    [1], and throws the same failure otherwise.  The node it returns is an
    unnamed "Constant" without inputs whose "value" tensor has the given
    shape as its dimensions, so rank 0 for the empty shape, holds the one
    value, and is tagged by the type of the value alone. *)
Theorem shaped_constant_node (value : Scalar) (shp : list Z)
    (arg_name : string) :
  (is_Ok (ConstantScalarNode_shape value shp arg_name) = true
   <-> shp = [] \/ shp = [1])
  /\ (is_Ok (ConstantScalarNode_shape value shp arg_name)
      = is_Ok (ScalarTensorProto value shp))
  /\ (forall nd, ConstantScalarNode_shape value shp arg_name = Ok nd ->
      nd = NodeDef_ctor "Constant" [] [mkArgDef arg_name None]
             [MakeAttribute "value"
                {| data_type := data_type_of value; dims := shp;
                   data := [value] |}])
  /\ (forall msg, ScalarTensorProto value shp = Fatal msg ->
      ConstantScalarNode_shape value shp arg_name = Fatal msg).
Proof.
  unfold ConstantScalarNode_shape, ScalarTensorProto, ORT_ENFORCE_pure.
  pose proof (scalar_shape_ok_spec shp) as Hok.
  destruct (scalar_shape_ok shp); simpl.
  - rewrite foldl_add_dims. simpl. repeat split; try done.
    + intros _. by apply Hok.
    + by intros nd [= <-].
  - repeat split; try done.
    + intros Hshp. by apply Hok in Hshp.
    + by intros msg [= <-].
Qed.

Lemma shaped_constant_node_witness :
  ConstantScalarNode_shape (Float float_0_5) [] "half"
  = Ok (NodeDef_ctor "Constant" [] [mkArgDef "half" None]
          [MakeAttribute "value"
             {| data_type := TensorProto_DataType_FLOAT; dims := [];
                data := [Float float_0_5] |}]).
Proof.
  destruct (shaped_constant_node (Float float_0_5) [] "half")
    as (_ & _ & Hnode & _).
  exact (f_equal Ok (Hnode _ eq_refl)).
Defined.
